(** * Passenger [Session]: a shallow embedding of ext/common/Session.h

    The header defines the abstract class [Session] (one request/response
    exchange with an application process) and its implementation
    [StandardSession], which owns a file descriptor and a close callback.

    The C++ methods are stateful and throw exceptions.  They are embedded
    as computations in a state-and-exception monad over
    - the object ([this]), and
    - the world outside the object: the state of the operating system and
      of the peer, the thread's [errno], and the trace of the calls the
      object has made to the primitives it is built on.

    The primitives themselves ([oxt::syscalls], [MessageChannel], the
    constants of <cerrno>) live in other files; they are the fields of the
    class [Platform], over which every definition of the embedding is
    parameterised. *)

From stdpp Require Import base list gmap strings.
From Stdlib Require Import ZArith Lia Strings.Byte.

#[local] Open Scope Z_scope.

(** ** Exceptions (Exceptions.h, boost) *)

(** [SystemException] carries a brief message and the [errno] code it was
    built from; [setBriefMessage] replaces the message and keeps the code. *)
Inductive Exception : Type :=
| IOException (msg : string)
| SystemException (briefMessage : string) (code : Z)
| thread_interrupted.

Definition setBriefMessage (e : Exception) (msg : string) : Exception :=
  match e with
  | SystemException _ c => SystemException msg c
  | _ => e
  end.

Inductive Result (A : Type) : Type :=
| Return (a : A)
| Raise (e : Exception).
Arguments Return {A} a.
Arguments Raise {A} e.

(** ** Primitives *)

(** Second argument of [shutdown(2)]. *)
Inductive ShutdownHow : Type := SHUT_RD | SHUT_WR.

(** What a call in [oxt::syscalls] does: it returns an [int] and leaves a
    value in [errno], or it throws [boost::thread_interrupted]. *)
Inductive SysResult : Type :=
| SysRet (ret : Z) (err : Z)
| SysInterrupted.

(** What a [MessageChannel] method does: it returns, or it throws a
    [SystemException], or it throws [boost::thread_interrupted]. *)
Inductive ChanResult : Type :=
| ChanOk
| ChanSystemException (briefMessage : string) (code : Z)
| ChanInterrupted.

(** The calls an object makes, in the order it makes them. *)
Inductive Event : Type :=
| CallShutdown (fd : Z) (how : ShutdownHow)
| CallClose (fd : Z)
| CallWriteScalar (fd : Z) (data : list Byte.byte)
| CallWriteRaw (fd : Z) (data : list Byte.byte)
| CallSetReadTimeout (fd : Z) (msec : Z)
| CallSetWriteTimeout (fd : Z) (msec : Z)
| CallCloseCallback.

(** The platform under the header.  [E] is the state of everything outside
    the object; each primitive transforms it. *)
Class Platform (E : Type) : Type := {
  EIO : Z;
  syscalls_shutdown : Z -> ShutdownHow -> E -> SysResult * E;
  syscalls_close : Z -> E -> SysResult * E;
  writeScalar : Z -> list Byte.byte -> E -> ChanResult * E;
  writeRaw : Z -> list Byte.byte -> E -> ChanResult * E;
  setReadTimeout : Z -> Z -> E -> ChanResult * E;
  setWriteTimeout : Z -> Z -> E -> ChanResult * E
}.

Record World (E : Type) : Type := mkWorld {
  ext : E;
  errno : Z;
  trace : list Event
}.
Arguments mkWorld {E} ext errno trace.
Arguments ext {E} w.
Arguments errno {E} w.
Arguments trace {E} w.

(** ** The monad: state (object and world) and exceptions *)

Definition M (E S A : Type) : Type := S * World E -> Result A * (S * World E).

Definition ret {E S A} (a : A) : M E S A := fun st => (Return a, st).

Definition throw {E S A} (e : Exception) : M E S A := fun st => (Raise e, st).

Definition bind {E S A B} (m : M E S A) (k : A -> M E S B) : M E S B :=
  fun st =>
    match m st with
    | (Return a, st') => k a st'
    | (Raise e, st') => (Raise e, st')
    end.

(** [try { m } catch (SystemException &e) { h e }]: the other exceptions
    pass through. *)
Definition catchSystemException {E S A} (m : M E S A)
    (h : Exception -> M E S A) : M E S A :=
  fun st =>
    match m st with
    | (Raise (SystemException b c), st') => h (SystemException b c) st'
    | other => other
    end.

Declare Scope session_scope.
Delimit Scope session_scope with session.
Notation "x <- c1 ;; c2" := (bind c1 (fun x => c2))
  (at level 100, c1 at next level, right associativity) : session_scope.
Notation "c1 ;; c2" := (bind c1 (fun _ => c2))
  (at level 100, right associativity) : session_scope.
#[local] Open Scope session_scope.

Definition this {E S} : M E S S := fun st => (Return (fst st), st).

Definition assign {E S} (f : S -> S) : M E S unit :=
  fun st => (Return tt, (f (fst st), snd st)).

Definition getErrno {E S} : M E S Z := fun st => (Return (errno (snd st)), st).

(** A call to [oxt::syscalls]: logged, run on the outside state, its
    [errno] stored. *)
Definition syscall {E S} (ev : Event) (prim : E -> SysResult * E) : M E S Z :=
  fun st =>
    let w := snd st in
    let (r, e') := prim (ext w) in
    match r with
    | SysRet v en => (Return v, (fst st, mkWorld e' en (trace w ++ [ev])))
    | SysInterrupted =>
        (Raise thread_interrupted, (fst st, mkWorld e' (errno w) (trace w ++ [ev])))
    end.

(** A call to a [MessageChannel] method. *)
Definition chancall {E S} (ev : Event) (prim : E -> ChanResult * E) : M E S unit :=
  fun st =>
    let w := snd st in
    let (r, e') := prim (ext w) in
    let st' := (fst st, mkWorld e' (errno w) (trace w ++ [ev])) in
    match r with
    | ChanOk => (Return tt, st')
    | ChanSystemException b c => (Raise (SystemException b c), st')
    | ChanInterrupted => (Raise thread_interrupted, st')
    end.

(** A [boost::function<void()>]: an action on the outside state, which may
    throw. *)
Definition Callback (E : Type) : Type := E -> Result unit * E.

Definition invoke {E S} (f : Callback E) : M E S unit :=
  fun st =>
    let w := snd st in
    let (r, e') := f (ext w) in
    (r, (fst st, mkWorld e' (errno w) (trace w ++ [CallCloseCallback]))).

(** ** class Session *)

(** The virtual methods of [Session].  [getStream] and [getPid] are
    [const]: they read the object. *)
Class Session (E S : Type) : Type := {
  getStream : S -> Z;
  setReaderTimeout : Z -> M E S unit;
  setWriterTimeout : Z -> M E S unit;
  shutdownReader : M E S unit;
  shutdownWriter : M E S unit;
  closeStream : M E S unit;
  discardStream : M E S unit;
  getPid : S -> Z
}.

Section SessionBase.
Context {E : Type} `{!Platform E} {S : Type} `{!Session E S}.

(** [Session::sendHeaders(const char *headers, unsigned int size)]; the
    buffer and its size are one list of bytes. *)
Definition sendHeaders (headers : list Byte.byte) : M E S unit :=
  s <- this ;;
  let stream := getStream s in
  if decide (stream = -1) then
    throw (IOException
      "Cannot write headers to the request handler because the I/O stream has already been closed or discarded.")
  else
    catchSystemException
      (chancall (CallWriteScalar stream headers) (writeScalar stream headers))
      (fun e => throw (setBriefMessage e
         "An error occured while writing headers to the request handler")).

(** [Session::sendBodyBlock(const char *block, unsigned int size)]. *)
Definition sendBodyBlock (block : list Byte.byte) : M E S unit :=
  s <- this ;;
  let stream := getStream s in
  if decide (stream = -1) then
    throw (IOException
      "Cannot write request body block to the request handler because the I/O channel has already been closed or discarded.")
  else
    catchSystemException
      (chancall (CallWriteRaw stream block) (writeRaw stream block))
      (fun e => throw (setBriefMessage e
         "An error occured while sending the request body to the request handler")).
End SessionBase.

(** ** class StandardSession *)

Record StandardSession (E : Type) : Type := mkStandardSession {
poolIdentifier : string;
closeCallback : Callback E;
fd : Z;
pid : Z
}.
Arguments mkStandardSession {E} poolIdentifier closeCallback fd pid.
Arguments poolIdentifier {E} s.
Arguments closeCallback {E} s.
Arguments fd {E} s.
Arguments pid {E} s.

Definition set_fd {E} (v : Z) (s : StandardSession E) : StandardSession E :=
mkStandardSession (poolIdentifier s) (closeCallback s) v (pid s).

Definition set_poolIdentifier {E} (v : string) (s : StandardSession E)
  : StandardSession E :=
mkStandardSession v (closeCallback s) (fd s) (pid s).

Module StandardSession.
Section Methods.
Context {E : Type} `{!Platform E}.

#[local] Abbreviation Self := (StandardSession E).

(** The constructor stores its three arguments; the pool identifier of
    the base class starts empty. *)
Definition new (pid : Z) (closeCallback : Callback E) (fd : Z) : Self :=
  mkStandardSession "" closeCallback fd pid.

Definition getStream (s : Self) : Z := fd s.

Definition setReaderTimeout (msec : Z) : M E Self unit :=
  s <- this ;;
  chancall (CallSetReadTimeout (fd s) msec) (setReadTimeout (fd s) msec).

Definition setWriterTimeout (msec : Z) : M E Self unit :=
  s <- this ;;
  chancall (CallSetWriteTimeout (fd s) msec) (setWriteTimeout (fd s) msec).

Definition shutdownReader : M E Self unit :=
  s <- this ;;
  if decide (fd s <> -1) then
    r <- syscall (CallShutdown (fd s) SHUT_RD) (syscalls_shutdown (fd s) SHUT_RD) ;;
    if decide (r = -1) then
      e <- getErrno ;;
      throw (SystemException "Cannot shutdown the reader stream" e)
    else ret tt
  else ret tt.

Definition shutdownWriter : M E Self unit :=
  s <- this ;;
  if decide (fd s <> -1) then
    r <- syscall (CallShutdown (fd s) SHUT_WR) (syscalls_shutdown (fd s) SHUT_WR) ;;
    if decide (r = -1) then
      e <- getErrno ;;
      throw (SystemException "Cannot shutdown the writer stream" e)
    else ret tt
  else ret tt.

Definition closeStream : M E Self unit :=
  s <- this ;;
  if decide (fd s <> -1) then
    r <- syscall (CallClose (fd s)) (syscalls_close (fd s)) ;;
    assign (set_fd (-1)) ;;
    if decide (r = -1) then
      e <- getErrno ;;
      if decide (e = EIO) then
        throw (SystemException "A write operation on the session stream failed" e)
      else
        throw (SystemException "Cannot close the session stream" e)
    else ret tt
  else ret tt.

Definition discardStream : M E Self unit := assign (set_fd (-1)).

Definition getPid (s : Self) : Z := pid s.

Definition getPoolIdentifier (s : Self) : string := poolIdentifier s.

Definition setPoolIdentifier (v : string) : M E Self unit :=
  assign (set_poolIdentifier v).

(** [~StandardSession()]. *)
Definition destructor : M E Self unit :=
  closeStream ;;
  s <- this ;;
  invoke (closeCallback s).
End Methods.
End StandardSession.

#[export] Instance StandardSession_Session {E : Type} `{!Platform E}
  : Session E (StandardSession E) := {
getStream := StandardSession.getStream;
setReaderTimeout := StandardSession.setReaderTimeout;
setWriterTimeout := StandardSession.setWriterTimeout;
shutdownReader := StandardSession.shutdownReader;
shutdownWriter := StandardSession.shutdownWriter;
closeStream := StandardSession.closeStream;
discardStream := StandardSession.discardStream;
getPid := StandardSession.getPid
}.

(** ** Callers *)

(** The operations on the channel that a caller can invoke on a live
    session. *)
Inductive Op : Type :=
| OpSendHeaders (headers : list Byte.byte)
| OpSendBodyBlock (block : list Byte.byte)
| OpSetReaderTimeout (msec : Z)
| OpSetWriterTimeout (msec : Z)
| OpShutdownReader
| OpShutdownWriter
| OpCloseStream
| OpDiscardStream.

(** The three operations that release the channel or one half of it. *)
Definition isTeardown (op : Op) : bool :=
  match op with
  | OpShutdownReader | OpShutdownWriter | OpCloseStream => true
  | _ => false
  end.

Section Callers.
Context {E : Type} `{!Platform E} {S : Type} `{!Session E S}.

Definition perform (op : Op) : M E S unit :=
  match op with
  | OpSendHeaders h => sendHeaders h
  | OpSendBodyBlock b => sendBodyBlock b
  | OpSetReaderTimeout t => setReaderTimeout t
  | OpSetWriterTimeout t => setWriterTimeout t
  | OpShutdownReader => shutdownReader
  | OpShutdownWriter => shutdownWriter
  | OpCloseStream => closeStream
  | OpDiscardStream => discardStream
  end.

(** A caller that performs the operations one after the other and catches
    whatever each one throws: the results, in order, and the final state. *)
Fixpoint performAll (ops : list Op) (st : S * World E)
    : list (Result unit) * (S * World E) :=
  match ops with
  | [] => ([], st)
  | op :: ops' =>
      let (r, st1) := perform op st in
      let (rs, st2) := performAll ops' st1 in
      (r :: rs, st2)
  end.
End Callers.

(** How often a trace calls the close primitive, and the callback. *)
Definition isClose (ev : Event) : bool :=
  match ev with CallClose _ => true | _ => false end.

Definition isCloseCallback (ev : Event) : bool :=
  match ev with CallCloseCallback => true | _ => false end.

Definition closeCalls (tr : list Event) : nat := length (List.filter isClose tr).

Definition callbackCalls (tr : list Event) : nat :=
  length (List.filter isCloseCallback tr).

(** ** The error kinds of the specification *)

Inductive ErrorKind : Type :=
| ChannelUnavailable
| TransportError
| PendingWriteFailed
| Cancelled.

(** The specification's taxonomy, read off the exceptions of the header:
    [IOException] is thrown for an absent handle, [thread_interrupted] is
    the cancellation, and among the [SystemException]s the one that
    [closeStream] builds for [EIO] is told apart by its brief message. *)
Definition errorKind (e : Exception) : ErrorKind :=
  match e with
  | IOException _ => ChannelUnavailable
  | SystemException b _ =>
      if String.eqb b "A write operation on the session stream failed"
      then PendingWriteFailed else TransportError
  | thread_interrupted => Cancelled
  end.

(** ** The header grammar

    From the documentation of [sendHeaders]:
<<
    headers ::= header*
    header  ::= name NUL value NUL
    name    ::= notnull+
    value   ::= notnull+
>> *)

Definition NUL : Byte.byte := x00.

Definition notnull (b : Byte.byte) : Prop := b <> NUL.

(** [notnull+] *)
Definition token (t : list Byte.byte) : Prop := t <> [] /\ Forall notnull t.

Inductive headers : list Byte.byte -> Prop :=
| headers_nil : headers []
| headers_cons name value rest :
    token name -> token value -> headers rest ->
    headers (name ++ NUL :: value ++ NUL :: rest).

(** Modelled from the spec: the encoder of header pairs is the caller's
    (it is not in Session.h); it writes each pair as name NUL value NUL. *)
Definition encodeHeader (h : list Byte.byte * list Byte.byte) : list Byte.byte :=
  h.1 ++ NUL :: h.2 ++ [NUL].

Definition encodeHeaders (hs : list (list Byte.byte * list Byte.byte))
    : list Byte.byte :=
  concat (map encodeHeader hs).

(** Modelled from the spec: splitting a buffer on a separator byte.  A
    buffer with [n] separators has [n + 1] fields, some possibly empty. *)
Fixpoint splitOn (sep : Byte.byte) (buf : list Byte.byte) : list (list Byte.byte) :=
  match buf with
  | [] => [[]]
  | b :: rest =>
      if Byte.eqb b sep then [] :: splitOn sep rest
      else match splitOn sep rest with
           | t :: ts => (b :: t) :: ts
           | [] => [[b]]
           end
  end.

Definition nonEmpty (t : list Byte.byte) : bool :=
  match t with [] => false | _ => true end.

Definition nonEmptyTokens (buf : list Byte.byte) : list (list Byte.byte) :=
  List.filter nonEmpty (splitOn NUL buf).

(** ** The framing collaborator *)

(** Modelled from the spec: [MessageChannel] is not in Session.h.  Of its
    two writers the specification says that one sends a buffer as one
    message preceded by a length indicator and the other sends the bytes
    as they are.  [wire e fd] is what has been sent on [fd] in the outside
    state [e]; the layout of the length indicator is left open. *)
Record FramingCollaborator {E : Type} `{!Platform E}
    (wire : E -> Z -> list Byte.byte) (lengthPrefix : nat -> list Byte.byte)
    : Prop := {
  writeScalar_frames : forall fd data e e',
    writeScalar fd data e = (ChanOk, e') ->
    wire e' fd = wire e fd ++ lengthPrefix (length data) ++ data;
  writeRaw_appends : forall fd data e e',
    writeRaw fd data e = (ChanOk, e') ->
    wire e' fd = wire e fd ++ data
}.

(** ** A reference platform

    Modelled from the spec: the transport and the framing collaborator
    ([oxt::syscalls] and [MessageChannel], which are not in Session.h) over
    a small kernel with a descriptor table.  It is one instance of
    [Platform], on which the embedding runs on concrete inputs. *)

Record Stream : Type := mkStream {
  sent : list Byte.byte;        (* what the peer has been sent *)
  readable : bool;              (* read half not shut down *)
  writable : bool;              (* write half not shut down *)
  closeError : option Z;        (* the errno close(2) will report, if any *)
  readTimeout : Z;
  writeTimeout : Z
}.

Record Kernel : Type := mkKernel {
  fds : gmap Z Stream;          (* the open descriptors *)
  interruptionRequested : bool; (* a pending boost::thread interruption *)
  released : nat                (* how often the pool slot was released *)
}.

Definition EBADF : Z := 9.
Definition EPIPE : Z := 32.

Definition withFds (k : Kernel) (m : gmap Z Stream) : Kernel :=
  mkKernel m (interruptionRequested k) (released k).

Definition refShutdown (fd : Z) (how : ShutdownHow) (k : Kernel) : SysResult * Kernel :=
  if interruptionRequested k then (SysInterrupted, k)
  else match fds k !! fd with
       | None => (SysRet (-1) EBADF, k)
       | Some st =>
           let st' :=
             match how with
             | SHUT_RD => mkStream (sent st) false (writable st) (closeError st)
                            (readTimeout st) (writeTimeout st)
             | SHUT_WR => mkStream (sent st) (readable st) false (closeError st)
                            (readTimeout st) (writeTimeout st)
             end in
           (SysRet 0 0, withFds k (<[fd := st']> (fds k)))
       end.

Definition refClose (fd : Z) (k : Kernel) : SysResult * Kernel :=
  if interruptionRequested k then (SysInterrupted, k)
  else match fds k !! fd with
       | None => (SysRet (-1) EBADF, k)
       | Some st =>
           match closeError st with
           | Some en => (SysRet (-1) en, withFds k (delete fd (fds k)))
           | None => (SysRet 0 0, withFds k (delete fd (fds k)))
           end
       end.

Definition refWrite (bytes : list Byte.byte) (fd : Z) (k : Kernel) : ChanResult * Kernel :=
  if interruptionRequested k then (ChanInterrupted, k)
  else match fds k !! fd with
       | None => (ChanSystemException "write() failed" EBADF, k)
       | Some st =>
           if writable st then
             (ChanOk,
              withFds k (<[fd := mkStream (sent st ++ bytes) (readable st) (writable st)
                                   (closeError st) (readTimeout st) (writeTimeout st)]>
                         (fds k)))
           else (ChanSystemException "write() failed" EPIPE, k)
       end.

Definition refSetReadTimeout (fd msec : Z) (k : Kernel) : ChanResult * Kernel :=
  match fds k !! fd with
  | None => (ChanSystemException "Cannot set read timeout for socket" EBADF, k)
  | Some st =>
      (ChanOk,
       withFds k (<[fd := mkStream (sent st) (readable st) (writable st)
                            (closeError st) msec (writeTimeout st)]> (fds k)))
  end.

Definition refSetWriteTimeout (fd msec : Z) (k : Kernel) : ChanResult * Kernel :=
  match fds k !! fd with
  | None => (ChanSystemException "Cannot set write timeout for socket" EBADF, k)
  | Some st =>
      (ChanOk,
       withFds k (<[fd := mkStream (sent st) (readable st) (writable st)
                            (closeError st) (readTimeout st) msec]> (fds k)))
  end.

(** A length indicator: the length as four bytes, most significant first. *)
Definition byteOfN (n : N) : Byte.byte :=
  match Byte.of_N (n mod 256) with Some b => b | None => x00 end.

Definition uint32be (n : nat) : list Byte.byte :=
  let v := N.of_nat n in
  [byteOfN (v / 16777216); byteOfN (v / 65536); byteOfN (v / 256); byteOfN v].

#[export] Instance refPlatform : Platform Kernel := {
  EIO := 5;
  syscalls_shutdown := refShutdown;
  syscalls_close := refClose;
  writeScalar := fun fd data => refWrite (uint32be (length data) ++ data) fd;
  writeRaw := fun fd data => refWrite data fd;
  setReadTimeout := refSetReadTimeout;
  setWriteTimeout := refSetWriteTimeout
}.

Definition refWire (k : Kernel) (fd : Z) : list Byte.byte :=
  match fds k !! fd with Some st => sent st | None => [] end.

Definition isOpen (k : Kernel) (fd : Z) : bool :=
  match fds k !! fd with Some _ => true | None => false end.

(** The pool's callback: it releases the slot. *)
Definition releaseSlot : Callback Kernel :=
  fun k => (Return tt, mkKernel (fds k) (interruptionRequested k) (Datatypes.S (released k))).

Definition freshStream (err : option Z) : Stream := mkStream [] true true err 0 0.

(** Descriptor 7 is a healthy socket; descriptor 8 has a buffered write
    that failed, which close(2) reports as EIO; descriptor 9 is on a file
    system whose close(2) fails with ENOSPC (28). *)
Definition kernel0 : Kernel :=
  mkKernel (<[7 := freshStream None]>
             (<[8 := freshStream (Some 5)]>
               (<[9 := freshStream (Some 28)]> ∅))) false 0.

Definition world0 : World Kernel := mkWorld kernel0 0 [].

Definition session (fd : Z) : StandardSession Kernel :=
  StandardSession.new 1234 releaseSlot fd.

(** The request of the specification's scenario: one header, one body
    block. *)
Definition requestHeaders : list Byte.byte :=
  String.list_byte_of_string "REQUEST_METHOD" ++ NUL ::
  String.list_byte_of_string "GET" ++ [NUL].

Definition requestBody : list Byte.byte := String.list_byte_of_string "a=1".

(** Which descriptor a call is made on. *)
Definition eventFd (ev : Event) : option Z :=
  match ev with
  | CallShutdown fd _ | CallClose fd | CallWriteScalar fd _ | CallWriteRaw fd _
  | CallSetReadTimeout fd _ | CallSetWriteTimeout fd _ => Some fd
  | CallCloseCallback => None
  end.

Definition touches (fd : Z) (ev : Event) : bool :=
  match eventFd ev with Some fd' => bool_decide (fd' = fd) | None => false end.

(** The only calls a session without a handle still makes: the timeout
    setters, which pass the handle on unchecked. *)
Definition isTimeoutOnAbsent (ev : Event) : bool :=
  match ev with
  | CallSetReadTimeout fd _ | CallSetWriteTimeout fd _ => bool_decide (fd = -1)
  | _ => false
  end.

(** A [ChanResult] as the result of the method that made the call. *)
Definition ofChanResult (r : ChanResult) : Result unit :=
  match r with
  | ChanOk => Return tt
  | ChanSystemException b c => Raise (SystemException b c)
  | ChanInterrupted => Raise thread_interrupted
  end.

(** ** Whole lives *)

Definition isDiscard (op : Op) : bool :=
  match op with OpDiscardStream => true | _ => false end.

Definition isInterrupted {A} (r : Result A) : bool :=
  match r with Raise thread_interrupted => true | _ => false end.

(** A call belongs to descriptor [d] when it is made on [d], or is a
    timeout setting on the absent handle. *)
Definition ownCall (d : Z) (ev : Event) : bool := touches d ev || touches (-1) ev.

(** A well-formed header pair: name and value are [notnull+]. *)
Definition wellFormed (h : list Byte.byte * list Byte.byte) : Prop :=
  token h.1 /\ token h.2.

(** The reference kernel with an interruption of the thread pending. *)
Definition worldInterrupted : World Kernel :=
  mkWorld (mkKernel (fds kernel0) true 0) 0 [].

(** A callback that throws. *)
Definition throwingCallback : Callback Kernel :=
  fun k => (Raise (IOException "the pool is gone"), k).

(** * Properties *)

Ltac unfold_monad :=
  unfold bind, ret, throw, this, assign, getErrno, syscall, chancall, invoke,
    catchSystemException in *.

Ltac unfold_methods :=
  unfold StandardSession.destructor, StandardSession.closeStream,
    StandardSession.discardStream, StandardSession.shutdownReader,
    StandardSession.shutdownWriter, StandardSession.setReaderTimeout,
    StandardSession.setWriterTimeout, StandardSession.getStream,
    sendHeaders, sendBodyBlock in *.

Ltac run := unfold_methods; unfold_monad; cbn [fst snd] in *.

Ltac decide_all := repeat (case_decide; cbn [fst snd] in *).

Ltac cases :=
  repeat first
    [ progress simplify_eq/=
    | case_decide
    | match goal with
      | |- context [let (_, _) := ?x in _] => destruct x eqn:?
      | |- context [match ?x with _ => _ end] => destruct x eqn:?
      | H : context [let (_, _) := ?x in _] |- _ => destruct x eqn:?
      | H : context [match ?x with _ => _ end] |- _ => destruct x eqn:?
      end ].

Lemma closeCalls_app tr tr' : closeCalls (tr ++ tr') = (closeCalls tr + closeCalls tr')%nat.
Proof. unfold closeCalls. by rewrite List.filter_app, length_app. Qed.

Lemma callbackCalls_app tr tr' :
  callbackCalls (tr ++ tr') = (callbackCalls tr + callbackCalls tr')%nat.
Proof. unfold callbackCalls. by rewrite List.filter_app, length_app. Qed.

Lemma set_fd_absent {E} (s : StandardSession E) : fd s = -1 -> set_fd (-1) s = s.
Proof. destruct s; unfold set_fd; simpl; intros ->; reflexivity. Qed.

Section SessionFacts.
Context {E : Type} `{!Platform E} {S : Type} `{!Session E S}.
Implicit Types (s : S) (w : World E).

(** ** The methods of the base class *)

Lemma sendHeaders_absent s w (buf : list Byte.byte) :
  getStream s = -1 ->
  sendHeaders buf (s, w) =
    (Raise (IOException
       "Cannot write headers to the request handler because the I/O stream has already been closed or discarded."),
     (s, w)).
Proof. intros Hfd. run. by case_decide. Qed.

Lemma sendBodyBlock_absent s w (block : list Byte.byte) :
  getStream s = -1 ->
  sendBodyBlock block (s, w) =
    (Raise (IOException
       "Cannot write request body block to the request handler because the I/O channel has already been closed or discarded."),
     (s, w)).
Proof. intros Hfd. run. by case_decide. Qed.

Lemma sendHeaders_present s w (buf : list Byte.byte) :
  getStream s <> -1 ->
  sendHeaders buf (s, w) =
    (match (writeScalar (getStream s) buf (ext w)).1 with
     | ChanOk => Return tt
     | ChanSystemException _ c =>
         Raise (SystemException
           "An error occured while writing headers to the request handler" c)
     | ChanInterrupted => Raise thread_interrupted
     end,
     (s, mkWorld (writeScalar (getStream s) buf (ext w)).2 (errno w)
           (trace w ++ [CallWriteScalar (getStream s) buf]))).
Proof.
  intros Hfd. run. case_decide; [done |]. cbn [fst snd].
  by destruct (writeScalar (getStream s) buf (ext w)) as [[] ?].
Qed.

Lemma sendBodyBlock_present s w (block : list Byte.byte) :
  getStream s <> -1 ->
  sendBodyBlock block (s, w) =
    (match (writeRaw (getStream s) block (ext w)).1 with
     | ChanOk => Return tt
     | ChanSystemException _ c =>
         Raise (SystemException
           "An error occured while sending the request body to the request handler" c)
     | ChanInterrupted => Raise thread_interrupted
     end,
     (s, mkWorld (writeRaw (getStream s) block (ext w)).2 (errno w)
           (trace w ++ [CallWriteRaw (getStream s) block]))).
Proof.
  intros Hfd. run. case_decide; [done |]. cbn [fst snd].
  by destruct (writeRaw (getStream s) block (ext w)) as [[] ?].
Qed.

(** C5.  On a session whose handle is absent, [sendHeaders] and
    [sendBodyBlock] throw an [IOException] (the specification's
    ChannelUnavailable) and call no primitive.  On a present handle whose
    write throws a [SystemException], they throw a [SystemException] (the
    specification's TransportError) that carries the error code of the
    one the write threw. *)
Theorem send_failures s w (buf : list Byte.byte) :
  (getStream s = -1 ->
     exists e1 e2,
       sendHeaders buf (s, w) = (Raise e1, (s, w)) /\
       sendBodyBlock buf (s, w) = (Raise e2, (s, w)) /\
       errorKind e1 = ChannelUnavailable /\ errorKind e2 = ChannelUnavailable) /\
  (getStream s <> -1 ->
     (forall b c, (writeScalar (getStream s) buf (ext w)).1 = ChanSystemException b c ->
        exists msg,
          (sendHeaders buf (s, w)).1 = Raise (SystemException msg c) /\
          errorKind (SystemException msg c) = TransportError) /\
     (forall b c, (writeRaw (getStream s) buf (ext w)).1 = ChanSystemException b c ->
        exists msg,
          (sendBodyBlock buf (s, w)).1 = Raise (SystemException msg c) /\
          errorKind (SystemException msg c) = TransportError)).
Proof.
  split.
  - intros Hfd. eexists _, _.
    rewrite sendHeaders_absent, sendBodyBlock_absent by done. done.
  - intros Hfd. split; intros b c Hw.
    + rewrite sendHeaders_present by done. rewrite Hw. by eexists.
    + rewrite sendBodyBlock_present by done. rewrite Hw. by eexists.
Qed.

(** A caller that sends body blocks one after the other, catching what
    each call throws: one raw write per block, in the order of the calls. *)
Lemma sendBodyBlocks_trace (blocks : list (list Byte.byte)) s w :
  getStream s <> -1 ->
  (performAll (map OpSendBodyBlock blocks) (s, w)).2.1 = s /\
  trace (performAll (map OpSendBodyBlock blocks) (s, w)).2.2 =
    trace w ++ map (CallWriteRaw (getStream s)) blocks.
Proof.
  intros Hfd. revert w. induction blocks as [| b blocks IH]; intros w; simpl.
  - by rewrite app_nil_r.
  - rewrite sendBodyBlock_present by done.
    match goal with |- context [performAll _ (s, ?w1)] =>
      destruct (IH w1) as [Hs Htr];
      destruct (performAll (map OpSendBodyBlock blocks) (s, w1)) as [rs [s2 w2]]
    end.
    simpl in *. split; [done |]. by rewrite Htr, <- app_assoc.
Qed.

Lemma sendBodyBlocks_wire (wire : E -> Z -> list Byte.byte)
    (lengthPrefix : nat -> list Byte.byte)
    (blocks : list (list Byte.byte)) s w :
  FramingCollaborator wire lengthPrefix ->
  getStream s <> -1 ->
  Forall (fun r => r = Return tt) (performAll (map OpSendBodyBlock blocks) (s, w)).1 ->
  wire (ext (performAll (map OpSendBodyBlock blocks) (s, w)).2.2) (getStream s) =
    wire (ext w) (getStream s) ++ concat blocks.
Proof.
  intros HF Hfd. revert w. induction blocks as [| b blocks IH]; intros w; simpl.
  - by rewrite app_nil_r.
  - rewrite sendBodyBlock_present by done.
    destruct (writeRaw (getStream s) b (ext w)) as [r e'] eqn:Hw. simpl.
    match goal with |- context [performAll _ (s, ?w1)] =>
      specialize (IH w1);
      destruct (performAll (map OpSendBodyBlock blocks) (s, w1)) as [rs [s2 w2]]
    end.
    simpl in *. intros Hall. apply Forall_cons in Hall as [Hr Hrs].
    destruct r; try discriminate.
    rewrite IH by done. rewrite (writeRaw_appends _ _ HF _ _ _ _ Hw).
    by rewrite <- app_assoc.
Qed.

(** C7.  On a present handle, [sendHeaders buf] makes exactly one call,
    the framed write of [buf]; when it returns, the wire has grown by one
    message: the length indicator of [buf] and then [buf], byte for byte.
    A sequence of [sendBodyBlock] calls makes one raw write per block, in
    the order of the calls; when they all return, the wire has grown by
    the blocks, concatenated, and nothing else. *)
Theorem send_wire (wire : E -> Z -> list Byte.byte)
    (lengthPrefix : nat -> list Byte.byte)
    s w (buf : list Byte.byte) (blocks : list (list Byte.byte)) :
  FramingCollaborator wire lengthPrefix ->
  getStream s <> -1 ->
  let h := sendHeaders buf (s, w) in
  let b := performAll (map OpSendBodyBlock blocks) (s, w) in
  trace h.2.2 = trace w ++ [CallWriteScalar (getStream s) buf] /\
  (h.1 = Return tt ->
     wire (ext h.2.2) (getStream s) =
       wire (ext w) (getStream s) ++ lengthPrefix (length buf) ++ buf) /\
  trace b.2.2 = trace w ++ map (CallWriteRaw (getStream s)) blocks /\
  (Forall (fun r => r = Return tt) b.1 ->
     wire (ext b.2.2) (getStream s) = wire (ext w) (getStream s) ++ concat blocks).
Proof.
  intros HF Hfd h b. subst h b. split; [| split; [| split]].
  - by rewrite sendHeaders_present.
  - rewrite sendHeaders_present by done. simpl.
    destruct (writeScalar (getStream s) buf (ext w)) as [r e'] eqn:Hw. simpl.
    destruct r; try discriminate. intros _.
    by apply (writeScalar_frames _ _ HF).
  - by apply sendBodyBlocks_trace.
  - by apply (sendBodyBlocks_wire wire lengthPrefix).
Qed.

End SessionFacts.

Section StandardSessionFacts.
Context {E : Type} `{!Platform E}.
Implicit Types (s : StandardSession E) (w : World E).

(** ** Single steps *)

Lemma closeStream_absent s w :
  fd s = -1 -> StandardSession.closeStream (s, w) = (Return tt, (s, w)).
Proof. intros Hfd. run. case_decide; [done | reflexivity]. Qed.

Lemma shutdownReader_absent s w :
  fd s = -1 -> StandardSession.shutdownReader (s, w) = (Return tt, (s, w)).
Proof. intros Hfd. run. case_decide; [done | reflexivity]. Qed.

Lemma shutdownWriter_absent s w :
  fd s = -1 -> StandardSession.shutdownWriter (s, w) = (Return tt, (s, w)).
Proof. intros Hfd. run. case_decide; [done | reflexivity]. Qed.

Lemma discardStream_spec s w :
  StandardSession.discardStream (s, w) = (Return tt, (set_fd (-1) s, w)).
Proof. reflexivity. Qed.

(** When the close primitive reports a result, whatever it is, the handle
    is absent afterwards and the primitive has been called once. *)
Lemma closeStream_present_returns s w v en e' :
  fd s <> -1 ->
  syscalls_close (fd s) (ext w) = (SysRet v en, e') ->
  StandardSession.closeStream (s, w) =
    (if decide (v = -1) then
       if decide (en = EIO)
       then Raise (SystemException "A write operation on the session stream failed" en)
       else Raise (SystemException "Cannot close the session stream" en)
     else Return tt,
     (set_fd (-1) s, mkWorld e' en (trace w ++ [CallClose (fd s)]))).
Proof.
  intros Hfd Hc. run. case_decide; [| done]. cbn [fst snd]. rewrite Hc.
  decide_all; done.
Qed.

(** When the close primitive is interrupted, the exception leaves
    [closeStream] before the handle is reset. *)
Lemma closeStream_present_interrupted s w e' :
  fd s <> -1 ->
  syscalls_close (fd s) (ext w) = (SysInterrupted, e') ->
  StandardSession.closeStream (s, w) =
    (Raise thread_interrupted,
     (s, mkWorld e' (errno w) (trace w ++ [CallClose (fd s)]))).
Proof. intros Hfd Hc. run. case_decide; [| done]. cbn [fst snd]. by rewrite Hc. Qed.

Lemma closeStream_not_interrupted_absent s w :
  (StandardSession.closeStream (s, w)).1 <> Raise thread_interrupted ->
  fd (StandardSession.closeStream (s, w)).2.1 = -1.
Proof.
  destruct (decide (fd s = -1)) as [Hfd | Hfd].
  - by rewrite closeStream_absent.
  - destruct (syscalls_close (fd s) (ext w)) as [[v en|] e'] eqn:Hc.
    + by rewrite (closeStream_present_returns _ _ _ _ _ Hfd Hc).
    + by rewrite (closeStream_present_interrupted _ _ _ Hfd Hc).
Qed.

(** ** A session without a handle *)

(** Whatever a caller does with a session whose handle is absent, the
    object stays as it is and the only calls made are timeout settings on
    the absent handle. *)
Lemma performAll_absent (ops : list Op) s w :
  fd s = -1 ->
  exists evs,
    (performAll ops (s, w)).2.1 = s /\
    trace (performAll ops (s, w)).2.2 = trace w ++ evs /\
    forallb isTimeoutOnAbsent evs = true.
Proof.
  revert w. induction ops as [| op ops IH]; intros w Hfd.
  - exists []. simpl. by rewrite app_nil_r.
  - simpl.
    assert (exists evs, (perform op (s, w)).2.1 = s /\
              trace (perform op (s, w)).2.2 = trace w ++ evs /\
              forallb isTimeoutOnAbsent evs = true) as (evs & Hs & Htr & Hev).
    { destruct op; simpl.
      - exists []. run. case_decide; [| done]. simpl. by rewrite app_nil_r.
      - exists []. run. case_decide; [| done]. simpl. by rewrite app_nil_r.
      - exists [CallSetReadTimeout (fd s) msec]. run.
        destruct (setReadTimeout (fd s) msec (ext w)) as [[] ?]; simpl;
          rewrite Hfd; done.
      - exists [CallSetWriteTimeout (fd s) msec]. run.
        destruct (setWriteTimeout (fd s) msec (ext w)) as [[] ?]; simpl;
          rewrite Hfd; done.
      - exists []. rewrite shutdownReader_absent by done. simpl. by rewrite app_nil_r.
      - exists []. rewrite shutdownWriter_absent by done. simpl. by rewrite app_nil_r.
      - exists []. rewrite closeStream_absent by done. simpl. by rewrite app_nil_r.
      - exists []. run. rewrite set_fd_absent by done. by rewrite app_nil_r. }
    destruct (perform op (s, w)) as [r [s1 w1]] eqn:Hop. simpl in Hs, Htr. subst s1.
    destruct (IH w1 Hfd) as (evs' & Hs' & Htr' & Hev').
    destruct (performAll ops (s, w1)) as [rs [s2 w2]] eqn:Hrest. simpl in *.
    exists (evs ++ evs'). split; [done |]. split.
    + by rewrite Htr', Htr, app_assoc.
    + by rewrite forallb_app, Hev, Hev'.
Qed.


(** The teardown operations do nothing on a session without a handle. *)
Lemma performAll_teardown_absent (ops : list Op) s w :
  fd s = -1 ->
  forallb isTeardown ops = true ->
  performAll ops (s, w) = (map (fun _ => Return tt) ops, (s, w)).
Proof.
  intros Hfd. induction ops as [| op ops IH]; simpl; [done |].
  intros [Hop Hops]%andb_prop.
  assert (perform op (s, w) = (Return tt, (s, w))) as ->.
  { destruct op; try discriminate; simpl.
    - by apply shutdownReader_absent.
    - by apply shutdownWriter_absent.
    - by apply closeStream_absent. }
  by rewrite IH.
Qed.

(** ** The destructor *)

Lemma closeStream_trace s w :
  trace (StandardSession.closeStream (s, w)).2.2 =
  trace w ++ (if decide (fd s = -1) then [] else [CallClose (fd s)]).
Proof.
  destruct (decide (fd s = -1)) as [Hfd | Hfd].
  - rewrite closeStream_absent by done. simpl. by rewrite app_nil_r.
  - destruct (syscalls_close (fd s) (ext w)) as [[v en|] e'] eqn:Hc.
    + by rewrite (closeStream_present_returns _ _ _ _ _ Hfd Hc).
    + by rewrite (closeStream_present_interrupted _ _ _ Hfd Hc).
Qed.

Lemma destructor_unfold s w :
  StandardSession.destructor (s, w) =
  match StandardSession.closeStream (s, w) with
  | (Return _, st') => invoke (closeCallback st'.1) st'
  | (Raise e, st') => (Raise e, st')
  end.
Proof. reflexivity. Qed.

Lemma invoke_trace {S} (f : Callback E) (st : S * World E) :
  (invoke f st).2.1 = st.1 /\
  trace (invoke f st).2.2 = trace st.2 ++ [CallCloseCallback].
Proof. unfold invoke. by destruct (f (ext st.2)). Qed.

Lemma destructor_absent s w :
  fd s = -1 ->
  (StandardSession.destructor (s, w)).2.1 = s /\
  trace (StandardSession.destructor (s, w)).2.2 = trace w ++ [CallCloseCallback].
Proof.
  intros Hfd. rewrite destructor_unfold, closeStream_absent by done.
  apply invoke_trace.
Qed.

(** C1, as amended.  The destructor calls [closeStream] and then the
    callback.  When the close attempt does not throw (the close succeeded,
    or the handle was already absent because [closeStream] or
    [discardStream] had been called), the callback is invoked exactly
    once, after the close attempt.  When the close attempt throws, the
    exception leaves the destructor and the callback is not invoked. *)
Theorem destructor_callback_once s w :
  let c := StandardSession.closeStream (s, w) in
  let d := StandardSession.destructor (s, w) in
  (c.1 = Return tt ->
     trace d.2.2 = trace c.2.2 ++ [CallCloseCallback] /\
     callbackCalls (trace d.2.2) = Datatypes.S (callbackCalls (trace w))) /\
  (forall e, c.1 = Raise e ->
     d = (Raise e, c.2) /\
     callbackCalls (trace d.2.2) = callbackCalls (trace w)) /\
  (fd s = -1 ->
     c = (Return tt, (s, w)) /\
     trace d.2.2 = trace w ++ [CallCloseCallback]).
Proof.
  intros c d.
  assert (callbackCalls (trace c.2.2) = callbackCalls (trace w)) as Hcb.
  { subst c. rewrite closeStream_trace, callbackCalls_app.
    case_decide; simpl; unfold callbackCalls; simpl; lia. }
  assert (d = match c with
              | (Return _, st') => invoke (closeCallback st'.1) st'
              | (Raise e, st') => (Raise e, st')
              end) as Hd by apply destructor_unfold.
  split; [| split].
  - intros Hc. destruct c as [[[] | e] st']; simpl in *; [| done].
    rewrite Hd. destruct (invoke_trace (closeCallback st'.1) st') as [_ ->].
    split; [done |].
    rewrite callbackCalls_app, Hcb. unfold callbackCalls at 2. simpl. lia.
  - intros e Hc. destruct c as [[[] | e0] st']; simpl in *; [done |].
    simplify_eq. by rewrite Hd.
  - intros Hfd. split.
    + subst c. by apply closeStream_absent.
    + subst d. by apply destructor_absent.
Qed.

(** C2.  After [closeStream] has returned, and after [discardStream],
    [getStream] is -1, and whatever sequence of [closeStream],
    [shutdownReader] and [shutdownWriter] calls follows, each call returns
    without an error and leaves the object and the world (and so the trace
    of primitive calls) as they were. *)
Theorem absent_after_close_or_discard s w :
  let c := StandardSession.closeStream (s, w) in
  let d := StandardSession.discardStream (s, w) in
  (c.1 = Return tt ->
     getStream c.2.1 = -1 /\
     forall ops, forallb isTeardown ops = true ->
       performAll ops c.2 = (map (fun _ => Return tt) ops, c.2)) /\
  (d.1 = Return tt /\
   getStream d.2.1 = -1 /\
   forall ops, forallb isTeardown ops = true ->
     performAll ops d.2 = (map (fun _ => Return tt) ops, d.2)).
Proof.
  intros c d. split.
  - intros Hc.
    assert (fd c.2.1 = -1) as Hfd.
    { apply closeStream_not_interrupted_absent. fold c. by rewrite Hc. }
    split; [done |]. intros ops Hops.
    destruct c as [r [s' w']]. by apply performAll_teardown_absent.
  - subst d. rewrite discardStream_spec. simpl.
    split; [done |]. split; [done |]. intros ops Hops.
    by apply performAll_teardown_absent.
Qed.

(** ** After the handle is gone *)

Lemma timeoutOnAbsent_closeCalls (evs : list Event) :
  forallb isTimeoutOnAbsent evs = true -> closeCalls evs = 0%nat.
Proof.
  induction evs as [| ev evs IH]; [done |]. simpl.
  intros [Hev Hevs]%andb_prop. unfold closeCalls in *. simpl.
  destruct ev; try discriminate; by apply IH.
Qed.

Lemma timeoutOnAbsent_touches (evs : list Event) (d : Z) :
  d <> -1 -> forallb isTimeoutOnAbsent evs = true -> existsb (touches d) evs = false.
Proof.
  intros Hd. induction evs as [| ev evs IH]; [done |]. simpl.
  intros [Hev Hevs]%andb_prop. rewrite IH by done.
  destruct ev; try discriminate; simpl in *;
    apply bool_decide_eq_true in Hev; subst; unfold touches; simpl;
    by rewrite bool_decide_eq_false_2.
Qed.

(** Once the handle is absent, whatever the caller still does and then
    the destructor: no call is made on any descriptor but -1. *)
Lemma rest_of_life_absent (ops : list Op) s w :
  fd s = -1 ->
  exists evs,
    trace (StandardSession.destructor (performAll ops (s, w)).2).2.2 = trace w ++ evs /\
    closeCalls evs = 0%nat /\
    callbackCalls evs = 1%nat /\
    forall d, d <> -1 -> existsb (touches d) evs = false.
Proof.
  intros Hfd. destruct (performAll_absent ops s w Hfd) as (evs & Hs & Htr & Hev).
  destruct (performAll ops (s, w)) as [rs [s1 w1]]. simpl in *. subst s1.
  destruct (destructor_absent s w1 Hfd) as [_ Hd].
  exists (evs ++ [CallCloseCallback]). split; [| split; [| split]].
  - by rewrite Hd, Htr, app_assoc.
  - rewrite closeCalls_app, timeoutOnAbsent_closeCalls by done. done.
  - rewrite callbackCalls_app. unfold callbackCalls at 2. simpl.
    assert (callbackCalls evs = 0%nat) as ->; [| done].
    clear -Hev. induction evs as [| ev evs IH]; [done |]. simpl in Hev.
    apply andb_prop in Hev as [Hev Hevs]. unfold callbackCalls in *.
    destruct ev; try discriminate; simpl; by apply IH.
  - intros d Hd'. rewrite existsb_app, timeoutOnAbsent_touches by done. done.
Qed.


(** C4.  When the close primitive fails with [EIO] (a buffered write that
    failed), [closeStream] throws the [SystemException] "A write operation
    on the session stream failed"; for any other [errno] it throws
    "Cannot close the session stream".  The two are told apart by their
    messages: the first is the specification's PendingWriteFailed, the
    second its TransportError. *)
Theorem closeStream_close_failure_kinds s w en :
  fd s <> -1 ->
  (syscalls_close (fd s) (ext w)).1 = SysRet (-1) en ->
  let c := StandardSession.closeStream (s, w) in
  (en = EIO ->
     c.1 = Raise (SystemException "A write operation on the session stream failed" EIO)) /\
  (en <> EIO ->
     c.1 = Raise (SystemException "Cannot close the session stream" en)) /\
  exists e, c.1 = Raise e /\
    errorKind e = if decide (en = EIO) then PendingWriteFailed else TransportError.
Proof.
  intros Hfd Hc c. destruct (syscalls_close (fd s) (ext w)) as [r e'] eqn:Hp.
  simpl in Hc. subst r c. rewrite (closeStream_present_returns _ _ _ _ _ Hfd Hp).
  simpl. split; [| split].
  - intros ->. by case_decide.
  - intros Hne. by case_decide.
  - case_decide; by eexists.
Qed.

(** C6.  [discardStream] returns, sets the handle to -1 and leaves the
    world as it was: it calls no primitive, so the stream is in the state
    it was in.  Nothing the caller still does with the session, nor the
    destructor, calls the close primitive or any primitive on the
    discarded descriptor. *)
Theorem discardStream_leaves_stream s w :
  let d := StandardSession.discardStream (s, w) in
  d.1 = Return tt /\
  getStream d.2.1 = -1 /\
  d.2.2 = w /\
  forall ops, exists evs,
    trace (StandardSession.destructor (performAll ops d.2).2).2.2 = trace w ++ evs /\
    closeCalls evs = 0%nat /\
    (fd s <> -1 -> existsb (touches (fd s)) evs = false).
Proof.
  intros d. subst d. rewrite discardStream_spec. simpl.
  split; [done |]. split; [done |]. split; [done |]. intros ops.
  destruct (rest_of_life_absent ops (set_fd (-1) s) w eq_refl)
    as (evs & Htr & Hcl & _ & Ht).
  exists evs. split; [done |]. split; [done |]. intros Hfd. by apply Ht.
Qed.

(** C9.  [setReaderTimeout] and [setWriterTimeout] do not look at the
    handle.  On a session whose handle is absent they call the channel's
    timeout primitive with -1 and pass on what it does; they never throw
    the [IOException] of an absent handle. *)
Theorem setTimeout_absent_unchecked s w (msec : Z) :
  getStream s = -1 ->
  let r := StandardSession.setReaderTimeout msec (s, w) in
  let r' := StandardSession.setWriterTimeout msec (s, w) in
  (trace r.2.2 = trace w ++ [CallSetReadTimeout (-1) msec] /\
   r.1 = ofChanResult (setReadTimeout (-1) msec (ext w)).1 /\
   forall msg, r.1 <> Raise (IOException msg)) /\
  (trace r'.2.2 = trace w ++ [CallSetWriteTimeout (-1) msec] /\
   r'.1 = ofChanResult (setWriteTimeout (-1) msec (ext w)).1 /\
   forall msg, r'.1 <> Raise (IOException msg)).
Proof.
  simpl. unfold StandardSession.getStream. intros Hfd. split.
  - run. rewrite Hfd. by destruct (setReadTimeout (-1) msec (ext w)) as [[] ?].
  - run. rewrite Hfd. by destruct (setWriteTimeout (-1) msec (ext w)) as [[] ?].
Qed.

Lemma shutdownReader_object s w : (StandardSession.shutdownReader (s, w)).2.1 = s.
Proof.
  run. case_decide; [| done]. cbn [fst snd].
  destruct (syscalls_shutdown (fd s) SHUT_RD (ext w)) as [[] ?]; decide_all; done.
Qed.

Lemma shutdownWriter_object s w : (StandardSession.shutdownWriter (s, w)).2.1 = s.
Proof.
  run. case_decide; [| done]. cbn [fst snd].
  destruct (syscalls_shutdown (fd s) SHUT_WR (ext w)) as [[] ?]; decide_all; done.
Qed.

(** C10.  [shutdownReader] and [shutdownWriter] leave the object as it
    is, whatever the half-close does.  On a present handle, [getStream]
    still returns the descriptor afterwards, [sendBodyBlock] writes to it
    and does not throw the [IOException] of an absent handle, and
    [closeStream] closes it. *)
Theorem shutdown_keeps_handle s w (block : list Byte.byte) :
  let r := StandardSession.shutdownReader (s, w) in
  let r' := StandardSession.shutdownWriter (s, w) in
  r.2.1 = s /\ r'.2.1 = s /\
  (fd s <> -1 ->
     forall st, st = r.2 \/ st = r'.2 ->
       getStream st.1 = fd s /\
       trace (sendBodyBlock block st).2.2 = trace st.2 ++ [CallWriteRaw (fd s) block] /\
       (forall msg, (sendBodyBlock block st).1 <> Raise (IOException msg)) /\
       trace (StandardSession.closeStream st).2.2 = trace st.2 ++ [CallClose (fd s)]).
Proof.
  intros r r'. split; [apply shutdownReader_object |].
  split; [apply shutdownWriter_object |].
  intros Hfd [s1 w1] Hst.
  assert (s1 = s) as ->.
  { destruct Hst as [Hst | Hst].
    - pose proof (shutdownReader_object s w) as Ho. fold r in Ho. by rewrite <- Hst in Ho.
    - pose proof (shutdownWriter_object s w) as Ho. fold r' in Ho. by rewrite <- Hst in Ho. }
  clear Hst. simpl. split; [done |].
  rewrite sendBodyBlock_present by exact Hfd. simpl. split; [done |]. split.
  - intros msg. by case_match.
  - rewrite closeStream_trace. by case_decide.
Qed.
End StandardSessionFacts.

(** ** The header grammar *)

Lemma splitOn_token (t rest : list Byte.byte) :
  Forall notnull t ->
  splitOn NUL (t ++ NUL :: rest) = t :: splitOn NUL rest.
Proof.
  induction 1 as [| b t Hb Ht IH]; simpl.
  - reflexivity.
  - rewrite IH. destruct (Byte.eqb b NUL) eqn:Heq; [| reflexivity].
    apply Byte.byte_dec_bl in Heq. contradiction.
Qed.

Lemma nonEmpty_token (t : list Byte.byte) : token t -> nonEmpty t = true.
Proof. intros [Hne _]. by destruct t. Qed.

Lemma nonEmptyTokens_header (name value rest : list Byte.byte) :
  token name -> token value ->
  nonEmptyTokens (name ++ NUL :: value ++ NUL :: rest) =
  name :: value :: nonEmptyTokens rest.
Proof.
  intros Hn Hv. unfold nonEmptyTokens.
  rewrite splitOn_token by apply Hn. rewrite splitOn_token by apply Hv.
  simpl. by rewrite !nonEmpty_token.
Qed.

Lemma headers_tokens_double (buf : list Byte.byte) :
  headers buf -> exists n, length (nonEmptyTokens buf) = (2 * n)%nat.
Proof.
  induction 1 as [| name value rest Hn Hv _ [n IH]].
  - by exists 0%nat.
  - exists (Datatypes.S n). rewrite nonEmptyTokens_header by done. simpl. lia.
Qed.

(** What the encoder writes for well-formed pairs is in the grammar, and
    its non-empty fields are the names and values, in order. *)
Lemma encodeHeaders_headers (hs : list (list Byte.byte * list Byte.byte)) :
  Forall (fun h => token h.1 /\ token h.2) hs -> headers (encodeHeaders hs).
Proof.
  induction 1 as [| [name value] hs [Hn Hv] _ IH]; unfold encodeHeaders; simpl.
  - constructor.
  - unfold encodeHeader. simpl. rewrite <- !app_assoc. simpl.
    rewrite <- app_assoc. simpl. by constructor.
Qed.

Lemma encodeHeaders_tokens (hs : list (list Byte.byte * list Byte.byte)) :
  Forall (fun h => token h.1 /\ token h.2) hs ->
  nonEmptyTokens (encodeHeaders hs) = concat (map (fun h => [h.1; h.2]) hs).
Proof.
  induction 1 as [| [name value] hs [Hn Hv] _ IH]; [done |].
  unfold encodeHeaders in *. simpl. unfold encodeHeader at 1. simpl.
  rewrite <- !app_assoc. simpl. rewrite <- app_assoc. simpl.
  rewrite nonEmptyTokens_header by done. by rewrite IH.
Qed.

(** C8.  The pairs ("A","1"), ("B","2") are encoded as the eight bytes
    A NUL 1 NUL B NUL 2 NUL, and a buffer in the grammar, split on NUL,
    has an even number of non-empty fields. *)
Theorem header_grammar_tokens :
  encodeHeaders [(String.list_byte_of_string "A", String.list_byte_of_string "1");
                 (String.list_byte_of_string "B", String.list_byte_of_string "2")]
    = [x41; x00; x31; x00; x42; x00; x32; x00] /\
  forall buf, headers buf -> Nat.Even (length (nonEmptyTokens buf)).
Proof.
  split; [reflexivity |].
  intros buf [n Hn]%headers_tokens_double. by exists n.
Qed.

(** ** The reference platform *)

Lemma refWrite_appends (bytes : list Byte.byte) (fd : Z) (k k' : Kernel) :
  refWrite bytes fd k = (ChanOk, k') -> refWire k' fd = refWire k fd ++ bytes.
Proof.
  unfold refWrite, refWire. destruct (interruptionRequested k); [discriminate |].
  destruct (fds k !! fd) as [st |] eqn:Hfd; [| discriminate].
  destruct (writable st); [| discriminate].
  intros [= <-]. simpl. by rewrite lookup_insert_eq.
Qed.

Lemma refPlatform_framing : FramingCollaborator refWire uint32be.
Proof.
  split; intros fd data e e' Hw; simpl in Hw.
  - by rewrite (refWrite_appends _ _ _ _ Hw).
  - by apply refWrite_appends.
Qed.

(** ** The theorems at concrete sessions *)

(** C1, as stated, fails: on descriptor 9 the close fails, [closeStream]
    throws, the exception leaves the destructor, and the callback has not
    been invoked. *)
Lemma destructor_close_failure_skips_callback :
  (syscalls_close 9 kernel0).1 = SysRet (-1) 28 /\
  (StandardSession.destructor (session 9, world0)).1 =
    Raise (SystemException "Cannot close the session stream" 28) /\
  trace (StandardSession.destructor (session 9, world0)).2.2 = [CallClose 9] /\
  released (ext (StandardSession.destructor (session 9, world0)).2.2) = 0%nat /\
  callbackCalls (trace (StandardSession.destructor (session 9, world0)).2.2) <> 1%nat.
Proof. vm_compute. repeat split; discriminate. Qed.

(** On descriptor 7 the close succeeds and the callback runs once; on
    descriptor 9 it fails and the callback does not run. *)
Lemma destructor_callback_once_witness :
  (StandardSession.closeStream (session 7, world0)).1 = Return tt /\
  callbackCalls (trace (StandardSession.destructor (session 7, world0)).2.2) = 1%nat /\
  (StandardSession.closeStream (session 9, world0)).1 =
    Raise (SystemException "Cannot close the session stream" 28) /\
  callbackCalls (trace (StandardSession.destructor (session 9, world0)).2.2) = 0%nat.
Proof.
  split; [reflexivity |]. split.
  - exact (proj2 (proj1 (destructor_callback_once (session 7) world0) eq_refl)).
  - split; [reflexivity |].
    exact (proj2 (proj1 (proj2 (destructor_callback_once (session 9) world0)) _ eq_refl)).
Defined.

(** After a close that returned, three more teardown calls change nothing. *)
Lemma absent_after_close_or_discard_witness :
  (StandardSession.closeStream (session 7, world0)).1 = Return tt /\
  performAll [OpCloseStream; OpShutdownReader; OpShutdownWriter]
    (StandardSession.closeStream (session 7, world0)).2 =
  ([Return tt; Return tt; Return tt], (StandardSession.closeStream (session 7, world0)).2).
Proof.
  split; [reflexivity |].
  exact (proj2 (proj1 (absent_after_close_or_discard (session 7) world0) eq_refl)
           [OpCloseStream; OpShutdownReader; OpShutdownWriter] eq_refl).
Defined.



(** On descriptor 8 the close fails with EIO: the exception is the one of
    the failed write. *)
Lemma closeStream_close_failure_kinds_witness :
  fd (session 8) <> -1 /\
  (syscalls_close 8 kernel0).1 = SysRet (-1) 5 /\
  (StandardSession.closeStream (session 8, world0)).1 =
    Raise (SystemException "A write operation on the session stream failed" 5).
Proof.
  assert (fd (session 8) <> -1) as Hfd by discriminate.
  split; [exact Hfd |]. split; [reflexivity |].
  exact (proj1 (closeStream_close_failure_kinds (session 8) world0 5 Hfd eq_refl) eq_refl).
Defined.

(** Descriptor -1 is the absent handle; descriptor 5 is not open, so a
    write to it fails with EBADF. *)
Lemma send_failures_witness :
  getStream (session (-1)) = -1 /\
  (exists e1 e2,
     sendHeaders requestHeaders (session (-1), world0) = (Raise e1, (session (-1), world0)) /\
     sendBodyBlock requestHeaders (session (-1), world0) = (Raise e2, (session (-1), world0)) /\
     errorKind e1 = ChannelUnavailable /\ errorKind e2 = ChannelUnavailable) /\
  getStream (session 5) <> -1 /\
  (writeScalar 5 requestHeaders kernel0).1 = ChanSystemException "write() failed" EBADF /\
  exists msg,
    (sendHeaders requestHeaders (session 5, world0)).1 = Raise (SystemException msg EBADF) /\
    errorKind (SystemException msg EBADF) = TransportError.
Proof.
  assert (getStream (session 5) <> -1) as Hfd by discriminate.
  split; [reflexivity |]. split.
  - exact (proj1 (send_failures (session (-1)) world0 requestHeaders) eq_refl).
  - split; [exact Hfd |]. split; [reflexivity |].
    exact (proj1 (proj2 (send_failures (session 5) world0 requestHeaders) Hfd)
             "write() failed" EBADF eq_refl).
Defined.

(** Discarding descriptor 7 leaves the world as it was, the descriptor
    open. *)
Lemma discardStream_leaves_stream_witness :
  (StandardSession.discardStream (session 7, world0)).2.2 = world0 /\
  isOpen (ext (StandardSession.discardStream (session 7, world0)).2.2) 7 = true.
Proof.
  pose proof (proj1 (proj2 (proj2 (discardStream_leaves_stream (session 7) world0)))) as H.
  split; [exact H | reflexivity].
Defined.

(** On the reference platform: the headers as one framed message, two body
    blocks back to back. *)
Lemma send_wire_witness :
  getStream (session 7) <> -1 /\
  refWire (ext (sendHeaders requestHeaders (session 7, world0)).2.2) 7 =
    uint32be 19 ++ requestHeaders /\
  refWire (ext (performAll (map OpSendBodyBlock [requestBody; requestBody])
                  (session 7, world0)).2.2) 7 =
    requestBody ++ requestBody.
Proof.
  assert (getStream (session 7) <> -1) as Hfd by discriminate.
  pose proof (send_wire refWire uint32be (session 7) world0 requestHeaders
                [requestBody; requestBody] refPlatform_framing Hfd) as (_ & Hh & _ & Hb).
  split; [exact Hfd |]. split.
  - exact (Hh eq_refl).
  - apply Hb. repeat constructor.
Defined.

(** The request headers of the scenario are in the grammar. *)
Lemma header_grammar_tokens_witness :
  headers requestHeaders /\ Nat.Even (length (nonEmptyTokens requestHeaders)).
Proof.
  assert (headers requestHeaders) as Hh.
  { apply (encodeHeaders_headers
             [(String.list_byte_of_string "REQUEST_METHOD", String.list_byte_of_string "GET")]).
    repeat constructor; discriminate. }
  split; [exact Hh |]. exact (proj2 header_grammar_tokens requestHeaders Hh).
Defined.

(** On the reference platform the timeout call on -1 is made and fails
    with EBADF, as a [SystemException]. *)
Lemma setTimeout_absent_unchecked_witness :
  getStream (session (-1)) = -1 /\
  trace (StandardSession.setReaderTimeout 500 (session (-1), world0)).2.2 =
    [CallSetReadTimeout (-1) 500] /\
  (StandardSession.setReaderTimeout 500 (session (-1), world0)).1 =
    Raise (SystemException "Cannot set read timeout for socket" EBADF).
Proof.
  pose proof (setTimeout_absent_unchecked (session (-1)) world0 500 eq_refl)
    as [(Ht & Hr & _) _].
  split; [reflexivity |]. split; [exact Ht | exact Hr].
Defined.

(** After the write half of descriptor 7 is shut down the handle is still
    7, and [closeStream] closes it. *)
Lemma shutdown_keeps_handle_witness :
  fd (session 7) <> -1 /\
  getStream (StandardSession.shutdownWriter (session 7, world0)).2.1 = 7 /\
  trace (StandardSession.closeStream (StandardSession.shutdownWriter (session 7, world0)).2).2.2 =
    [CallShutdown 7 SHUT_WR; CallClose 7].
Proof.
  assert (fd (session 7) <> -1) as Hfd by discriminate.
  pose proof (proj2 (proj2 (shutdown_keeps_handle (session 7) world0 requestBody)) Hfd
                _ (or_intror eq_refl)) as (Hg & _ & _ & Hc).
  split; [exact Hfd |]. split; [exact Hg | exact Hc].
Defined.

(** ** The scenarios of the specification *)

(** Discard, then destroy: the stream is still open, nothing was closed,
    and the callback ran once. *)
Example scenario_discard_then_destroy :
  let st := StandardSession.destructor (StandardSession.discardStream (session 7, world0)).2 in
  st.1 = Return tt /\
  trace st.2.2 = [CallCloseCallback] /\
  isOpen (ext st.2.2) 7 = true /\
  released (ext st.2.2) = 1%nat.
Proof. vm_compute. repeat split. Qed.

(** Headers, one body block, then the write half is shut down: one framed
    message and the raw block on the wire, the read half still open. *)
Example scenario_request :
  let run := performAll [OpSendHeaders requestHeaders; OpSendBodyBlock requestBody;
                         OpShutdownWriter] (session 7, world0) in
  run.1 = [Return tt; Return tt; Return tt] /\
  trace run.2.2 = [CallWriteScalar 7 requestHeaders; CallWriteRaw 7 requestBody;
                   CallShutdown 7 SHUT_WR] /\
  refWire (ext run.2.2) 7 = uint32be 19 ++ requestHeaders ++ requestBody /\
  (writable <$> fds (ext run.2.2) !! 7) = Some false /\
  (readable <$> fds (ext run.2.2) !! 7) = Some true.
Proof. vm_compute. repeat split. Qed.

(** An interruption of the close leaves the handle in place, and the
    destructor then calls the close primitive on it again. *)
Example scenario_interrupted_close :
  let w := mkWorld (mkKernel (fds kernel0) true 0) 0 [] in
  let c := StandardSession.closeStream (session 7, w) in
  c.1 = Raise thread_interrupted /\
  getStream c.2.1 = 7 /\
  trace (StandardSession.destructor c.2).2.2 = [CallClose 7; CallClose 7].
Proof. vm_compute. repeat split. Qed.

(** * Further properties of the header *)

Section StandardSessionSteps.
Context {E : Type} `{!Platform E}.
Implicit Types (s : StandardSession E) (w : World E).

(** ** What each method does, as an equation *)

Lemma shutdownReader_present s w :
  fd s <> -1 ->
  StandardSession.shutdownReader (s, w) =
    (match (syscalls_shutdown (fd s) SHUT_RD (ext w)).1 with
     | SysRet v en =>
         if decide (v = -1)
         then Raise (SystemException "Cannot shutdown the reader stream" en)
         else Return tt
     | SysInterrupted => Raise thread_interrupted
     end,
     (s, mkWorld (syscalls_shutdown (fd s) SHUT_RD (ext w)).2
           (match (syscalls_shutdown (fd s) SHUT_RD (ext w)).1 with
            | SysRet _ en => en
            | SysInterrupted => errno w
            end)
           (trace w ++ [CallShutdown (fd s) SHUT_RD]))).
Proof.
  intros Hfd. run. case_decide; [| done]. cbn [fst snd].
  destruct (syscalls_shutdown (fd s) SHUT_RD (ext w)) as [[v en |] e']; simpl;
    [| done]. decide_all; done.
Qed.

Lemma shutdownWriter_present s w :
  fd s <> -1 ->
  StandardSession.shutdownWriter (s, w) =
    (match (syscalls_shutdown (fd s) SHUT_WR (ext w)).1 with
     | SysRet v en =>
         if decide (v = -1)
         then Raise (SystemException "Cannot shutdown the writer stream" en)
         else Return tt
     | SysInterrupted => Raise thread_interrupted
     end,
     (s, mkWorld (syscalls_shutdown (fd s) SHUT_WR (ext w)).2
           (match (syscalls_shutdown (fd s) SHUT_WR (ext w)).1 with
            | SysRet _ en => en
            | SysInterrupted => errno w
            end)
           (trace w ++ [CallShutdown (fd s) SHUT_WR]))).
Proof.
  intros Hfd. run. case_decide; [| done]. cbn [fst snd].
  destruct (syscalls_shutdown (fd s) SHUT_WR (ext w)) as [[v en |] e']; simpl;
    [| done]. decide_all; done.
Qed.

Lemma setReaderTimeout_spec s w (msec : Z) :
  StandardSession.setReaderTimeout msec (s, w) =
    (ofChanResult (setReadTimeout (fd s) msec (ext w)).1,
     (s, mkWorld (setReadTimeout (fd s) msec (ext w)).2 (errno w)
           (trace w ++ [CallSetReadTimeout (fd s) msec]))).
Proof. run. by destruct (setReadTimeout (fd s) msec (ext w)) as [[] ?]. Qed.

Lemma setWriterTimeout_spec s w (msec : Z) :
  StandardSession.setWriterTimeout msec (s, w) =
    (ofChanResult (setWriteTimeout (fd s) msec (ext w)).1,
     (s, mkWorld (setWriteTimeout (fd s) msec (ext w)).2 (errno w)
           (trace w ++ [CallSetWriteTimeout (fd s) msec]))).
Proof. run. by destruct (setWriteTimeout (fd s) msec (ext w)) as [[] ?]. Qed.

Lemma touches_self_true (d : Z) (ev : Event) :
  eventFd ev = Some d -> touches d ev = true.
Proof. unfold touches. intros ->. by apply bool_decide_eq_true. Qed.

(** One operation: the calls it makes are on the session's descriptor,
    only [closeStream] calls the close primitive, none calls the callback,
    and the object is left as it is or loses its handle. *)
Lemma perform_step (op : Op) s w :
  exists evs,
    trace (perform op (s, w)).2.2 = trace w ++ evs /\
    forallb (touches (fd s)) evs = true /\
    (closeCalls evs = 0%nat \/ op = OpCloseStream) /\
    ((perform op (s, w)).2.1 = s \/
     ((op = OpCloseStream \/ op = OpDiscardStream) /\ (perform op (s, w)).2.1 = set_fd (-1) s)).
Proof.
  assert (forall evs s1,
            trace (perform op (s, w)).2.2 = trace w ++ evs ->
            (perform op (s, w)).2.1 = s1 ->
            forallb (touches (fd s)) evs = true ->
            closeCalls evs = 0%nat \/ op = OpCloseStream ->
            s1 = s \/ ((op = OpCloseStream \/ op = OpDiscardStream) /\ s1 = set_fd (-1) s) ->
            exists evs,
              trace (perform op (s, w)).2.2 = trace w ++ evs /\
              forallb (touches (fd s)) evs = true /\
              (closeCalls evs = 0%nat \/ op = OpCloseStream) /\
              ((perform op (s, w)).2.1 = s \/
               ((op = OpCloseStream \/ op = OpDiscardStream) /\
                (perform op (s, w)).2.1 = set_fd (-1) s))) as Hpack.
  { intros evs s1 Htr Hs Hown Hcl Hobj. exists evs. rewrite Hs. auto. }
  assert (forall ev, eventFd ev = Some (fd s) -> forallb (touches (fd s)) [ev] = true)
    as Hone.
  { intros ev Hev. simpl. by rewrite touches_self_true. }
  destruct (decide (fd s = -1)) as [Habs | Hfd].
  - destruct op as [h | b | t | t | | | |]; simpl in *.
    + apply (Hpack [] s); rewrite ?sendHeaders_absent by exact Habs; simpl;
        rewrite ?app_nil_r; auto; by apply Hone.
    + apply (Hpack [] s); rewrite ?sendBodyBlock_absent by exact Habs; simpl;
        rewrite ?app_nil_r; auto; by apply Hone.
    + apply (Hpack [CallSetReadTimeout (fd s) t] s);
        rewrite ?setReaderTimeout_spec; auto; by apply Hone.
    + apply (Hpack [CallSetWriteTimeout (fd s) t] s);
        rewrite ?setWriterTimeout_spec; auto; by apply Hone.
    + apply (Hpack [] s); rewrite ?shutdownReader_absent by done; simpl;
        rewrite ?app_nil_r; auto; by apply Hone.
    + apply (Hpack [] s); rewrite ?shutdownWriter_absent by done; simpl;
        rewrite ?app_nil_r; auto; by apply Hone.
    + apply (Hpack [] s); rewrite ?closeStream_absent by done; simpl;
        rewrite ?app_nil_r; auto; by apply Hone.
    + apply (Hpack [] (set_fd (-1) s)); rewrite ?discardStream_spec; simpl;
        rewrite ?app_nil_r; auto; by apply Hone.
  - destruct op as [h | b | t | t | | | |]; simpl in *.
    + apply (Hpack [CallWriteScalar (fd s) h] s);
        rewrite ?sendHeaders_present by exact Hfd; auto; by apply Hone.
    + apply (Hpack [CallWriteRaw (fd s) b] s);
        rewrite ?sendBodyBlock_present by exact Hfd; auto; by apply Hone.
    + apply (Hpack [CallSetReadTimeout (fd s) t] s);
        rewrite ?setReaderTimeout_spec; auto; by apply Hone.
    + apply (Hpack [CallSetWriteTimeout (fd s) t] s);
        rewrite ?setWriterTimeout_spec; auto; by apply Hone.
    + apply (Hpack [CallShutdown (fd s) SHUT_RD] s);
        rewrite ?shutdownReader_present by done; auto; by apply Hone.
    + apply (Hpack [CallShutdown (fd s) SHUT_WR] s);
        rewrite ?shutdownWriter_present by done; auto; by apply Hone.
    + destruct (syscalls_close (fd s) (ext w)) as [[v en |] e'] eqn:Hc.
      * apply (Hpack [CallClose (fd s)] (set_fd (-1) s));
          rewrite ?(closeStream_present_returns _ _ _ _ _ Hfd Hc); auto; by apply Hone.
      * apply (Hpack [CallClose (fd s)] s);
          rewrite ?(closeStream_present_interrupted _ _ _ Hfd Hc); auto; by apply Hone.
    + apply (Hpack [] (set_fd (-1) s)); rewrite ?discardStream_spec; simpl;
        rewrite ?app_nil_r; auto; by apply Hone.
Qed.

Lemma ownCall_weaken (d : Z) (evs : list Event) :
  forallb (touches d) evs = true -> forallb (ownCall d) evs = true.
Proof.
  induction evs as [| ev evs IH]; [done |]. simpl.
  intros [Hev Hevs]%andb_prop. unfold ownCall at 1. by rewrite Hev, IH.
Qed.

Lemma ownCall_absent (d : Z) (evs : list Event) :
  forallb (touches (-1)) evs = true -> forallb (ownCall d) evs = true.
Proof.
  induction evs as [| ev evs IH]; [done |]. simpl.
  intros [Hev Hevs]%andb_prop. unfold ownCall at 1. rewrite Hev, IH by done.
  by rewrite orb_true_r.
Qed.

Lemma touches_no_callback (d : Z) (evs : list Event) :
  forallb (ownCall d) evs = true -> callbackCalls evs = 0%nat.
Proof.
  induction evs as [| ev evs IH]; [done |]. simpl.
  intros [Hev Hevs]%andb_prop. unfold callbackCalls in *. simpl.
  destruct ev; try by apply IH. discriminate.
Qed.

(** Any sequence of operations. *)
Lemma performAll_steps (ops : list Op) s w :
  exists evs,
    trace (performAll ops (s, w)).2.2 = trace w ++ evs /\
    forallb (ownCall (fd s)) evs = true /\
    ((performAll ops (s, w)).2.1 = s \/ (performAll ops (s, w)).2.1 = set_fd (-1) s).
Proof.
  revert s w. induction ops as [| op ops IH]; intros s w; simpl.
  - exists []. rewrite app_nil_r. auto.
  - destruct (perform_step op s w) as (evs & Htr & Hown & _ & Hobj).
    destruct (perform op (s, w)) as [r [s1 w1]]. simpl in *.
    destruct (IH s1 w1) as (evs' & Htr' & Hown' & Hobj').
    destruct (performAll ops (s1, w1)) as [rs [s2 w2]]. simpl in *.
    exists (evs ++ evs'). split; [by rewrite Htr', Htr, app_assoc |].
    destruct Hobj as [-> | [_ ->]].
    + split; [| done]. rewrite forallb_app, Hown'. by rewrite ownCall_weaken.
    + split.
      * rewrite forallb_app, (ownCall_weaken _ _ Hown). simpl.
        clear -Hown'. induction evs' as [| ev evs' IH']; [done |]. simpl in *.
        apply andb_prop in Hown' as [Hev Hevs]. rewrite IH' by done.
        unfold ownCall in *. simpl in Hev. rewrite orb_diag in Hev. rewrite Hev.
        by rewrite orb_true_r.
      * destruct Hobj' as [-> | ->]; auto.
Qed.
End StandardSessionSteps.

Section StandardSessionLife.
Context {E : Type} `{!Platform E}.
Implicit Types (s : StandardSession E) (w : World E).

Lemma destructor_object s w :
  (StandardSession.destructor (s, w)).2.1 = (StandardSession.closeStream (s, w)).2.1 /\
  exists evs,
    trace (StandardSession.destructor (s, w)).2.2 =
      trace (StandardSession.closeStream (s, w)).2.2 ++ evs /\
    (evs = [] \/ evs = [CallCloseCallback]).
Proof.
  rewrite destructor_unfold.
  destruct (StandardSession.closeStream (s, w)) as [[[] | e] st'].
  - destruct (invoke_trace (closeCallback st'.1) st') as [-> ->]. eauto.
  - split; [done |]. exists []. rewrite app_nil_r. auto.
Qed.

Lemma closeStream_object s w :
  (StandardSession.closeStream (s, w)).2.1 = s \/
  (StandardSession.closeStream (s, w)).2.1 = set_fd (-1) s.
Proof.
  destruct (perform_step OpCloseStream s w) as (_ & _ & _ & _ & [Hs | [_ Hs]]); auto.
Qed.

(** X1.  The handle only ever goes from present to absent.  After any
    sequence of operations [getStream] returns the descriptor the session
    started with or -1, and once it is -1 it stays -1. *)
Theorem handle_one_way (ops : list Op) s w :
  (getStream (performAll ops (s, w)).2.1 = getStream s \/
   getStream (performAll ops (s, w)).2.1 = -1) /\
  (getStream s = -1 -> getStream (performAll ops (s, w)).2.1 = -1).
Proof.
  destruct (performAll_steps ops s w) as (_ & _ & _ & [-> | ->]); simpl; auto.
Qed.

(** X2.  No operation on the channel, and not the destructor either,
    changes the process id, the pool identifier or the callback of a
    session. *)
Theorem identity_preserved (ops : list Op) s w :
  let s1 := (performAll ops (s, w)).2.1 in
  let s2 := (StandardSession.destructor (performAll ops (s, w)).2).2.1 in
  (getPid s1 = getPid s /\
   StandardSession.getPoolIdentifier s1 = StandardSession.getPoolIdentifier s /\
   closeCallback s1 = closeCallback s) /\
  (getPid s2 = getPid s /\
   StandardSession.getPoolIdentifier s2 = StandardSession.getPoolIdentifier s /\
   closeCallback s2 = closeCallback s).
Proof.
  intros s1 s2.
  assert (s1 = s \/ s1 = set_fd (-1) s) as Hs1.
  { subst s1. destruct (performAll_steps ops s w) as (_ & _ & _ & H); exact H. }
  assert (s2 = s1 \/ s2 = set_fd (-1) s1) as Hs2.
  { subst s1 s2. destruct (performAll ops (s, w)) as [rs [s' w']]. simpl.
    destruct (destructor_object s' w') as [-> _]. apply closeStream_object. }
  split.
  - destruct Hs1 as [-> | ->]; done.
  - destruct Hs2 as [-> | ->], Hs1 as [-> | ->]; done.
Qed.

Lemma not_touched (d d' : Z) (evs : list Event) :
  d <> d' -> forallb (touches d') evs = true -> existsb (touches d) evs = false.
Proof.
  intros Hd. induction evs as [| ev evs IH]; [done |]. simpl.
  intros [Hev Hevs]%andb_prop. rewrite IH by done. rewrite orb_false_r.
  unfold touches in *. destruct (eventFd ev) as [d0 |]; [| done].
  apply bool_decide_eq_true in Hev. subst d0. by apply bool_decide_eq_false.
Qed.

Lemma not_touched_after (d : Z) (evs : list Event) :
  d <> -1 ->
  forallb (fun ev => isTimeoutOnAbsent ev || isCloseCallback ev) evs = true ->
  existsb (touches d) evs = false.
Proof.
  intros Hd. induction evs as [| ev evs IH]; [done |]. simpl.
  intros [Hev Hevs]%andb_prop. rewrite IH by done. rewrite orb_false_r.
  destruct ev; try discriminate; simpl in *; try done;
    rewrite orb_false_r in Hev; apply bool_decide_eq_true in Hev; subst;
    unfold touches; simpl; by apply bool_decide_eq_false.
Qed.

(** The life of a session without a handle: timeout settings on -1, then
    the callback. *)
Lemma life_absent (ops : list Op) s w :
  fd s = -1 ->
  exists rest,
    trace (StandardSession.destructor (performAll ops (s, w)).2).2.2 = trace w ++ rest /\
    forallb (fun ev => isTimeoutOnAbsent ev || isCloseCallback ev) rest = true.
Proof.
  intros Hfd. destruct (performAll_absent ops s w Hfd) as (evs & Hs & Htr & Hev).
  destruct (performAll ops (s, w)) as [rs [s1 w1]]. simpl in *. subst s1.
  destruct (destructor_absent s w1 Hfd) as [_ Hd].
  exists (evs ++ [CallCloseCallback]). split; [by rewrite Hd, Htr, app_assoc |].
  rewrite forallb_app. simpl. rewrite andb_true_r.
  clear -Hev. induction evs as [| ev evs IH]; [done |]. simpl in *.
  apply andb_prop in Hev as [-> Hevs]. by rewrite IH.
Qed.

Lemma life_phases (ops : list Op) s w :
  exists own rest,
    trace (StandardSession.destructor (performAll ops (s, w)).2).2.2 =
      trace w ++ own ++ rest /\
    forallb (touches (fd s)) own = true /\
    (fd s = -1 -> own = []) /\
    forallb (fun ev => isTimeoutOnAbsent ev || isCloseCallback ev) rest = true.
Proof.
  revert s w. induction ops as [| op ops IH]; intros s w.
  - destruct (decide (fd s = -1)) as [Habs | Hfd].
    + destruct (life_absent [] s w Habs) as (rest & Htr & Hrest).
      exists [], rest. auto.
    + simpl. destruct (destructor_object s w) as (_ & evs2 & Htr2 & Hevs2).
      rewrite closeStream_trace, decide_False in Htr2 by done.
      exists [CallClose (fd s)], evs2. split; [by rewrite Htr2, <- app_assoc |].
      split; [simpl; by rewrite touches_self_true |]. split; [done |].
      by destruct Hevs2 as [-> | ->].
  - destruct (decide (fd s = -1)) as [Habs | Hfd].
    + destruct (life_absent (op :: ops) s w Habs) as (rest & Htr & Hrest).
      exists [], rest. auto.
    + simpl. destruct (perform_step op s w) as (evs & Htr & Hown & _ & Hobj).
      destruct (perform op (s, w)) as [r [s1 w1]]. simpl in *.
      destruct Hobj as [-> | [_ ->]].
      * destruct (IH s w1) as (own & rest & Htr' & Hown' & _ & Hrest).
        destruct (performAll ops (s, w1)) as [rs [s2 w2]]. simpl in *.
        exists (evs ++ own), rest. split; [by rewrite Htr', Htr, <- !app_assoc |].
        split; [by rewrite forallb_app, Hown, Hown' |]. split; [done |]. exact Hrest.
      * destruct (life_absent ops (set_fd (-1) s) w1 eq_refl) as (rest & Htr' & Hrest).
        destruct (performAll ops (set_fd (-1) s, w1)) as [rs [s2 w2]]. simpl in *.
        exists evs, rest. split; [by rewrite Htr', Htr, <- app_assoc |].
        split; [exact Hown |]. split; [done |]. exact Hrest.
Qed.

(** X3.  A session makes calls on its own descriptor only.  Over its whole
    life (any sequence of operations, then the destructor) its calls come
    in two runs.  First come calls on the descriptor it was constructed
    with, none at all if that descriptor is -1.  Then come only timeout
    settings on -1 and the invocation of the callback.  So no primitive is
    called on any other descriptor, and the only calls ever made on -1 are
    timeout settings. *)
Theorem own_descriptor_only (ops : list Op) s w :
  exists own rest,
    trace (StandardSession.destructor (performAll ops (s, w)).2).2.2 =
      trace w ++ own ++ rest /\
    forallb (touches (fd s)) own = true /\
    (fd s = -1 -> own = []) /\
    forallb (fun ev => isTimeoutOnAbsent ev || isCloseCallback ev) rest = true /\
    (forall d, d <> fd s -> d <> -1 -> existsb (touches d) (own ++ rest) = false) /\
    (forall ev, ev ∈ own ++ rest -> eventFd ev = Some (-1) -> isTimeoutOnAbsent ev = true).
Proof.
  destruct (life_phases ops s w) as (own & rest & Htr & Hown & Habs & Hrest).
  exists own, rest. split; [done |]. split; [done |]. split; [done |].
  split; [done |]. split.
  - intros d Hd Hd'. rewrite existsb_app.
    by rewrite (not_touched d (fd s)), not_touched_after.
  - intros ev Hin Hfd. apply elem_of_app in Hin as [Hin | Hin].
    + destruct (decide (fd s = -1)) as [Heq | Hne].
      * rewrite (Habs Heq) in Hin. by apply elem_of_nil in Hin.
      * rewrite forallb_forall in Hown. apply list_elem_of_In, Hown in Hin.
        unfold touches in Hin. rewrite Hfd in Hin.
        apply bool_decide_eq_true in Hin. congruence.
    + rewrite forallb_forall in Hrest. apply list_elem_of_In, Hrest in Hin.
      apply orb_prop in Hin as [Hin | Hin]; [done |].
      destruct ev; try discriminate.
Qed.

(** X4.  Only the destructor invokes the callback: no sequence of
    operations invokes it, and over the whole life of a session it is
    invoked at most once. *)
Theorem callback_at_most_once (ops : list Op) s w :
  callbackCalls (trace (performAll ops (s, w)).2.2) = callbackCalls (trace w) /\
  (callbackCalls (trace (StandardSession.destructor (performAll ops (s, w)).2).2.2)
     <= callbackCalls (trace w) + 1)%nat.
Proof.
  destruct (performAll_steps ops s w) as (evs & Htr & Hown & _).
  destruct (performAll ops (s, w)) as [rs [s1 w1]]. simpl in *.
  assert (callbackCalls (trace w1) = callbackCalls (trace w)) as Hcb.
  { rewrite Htr, callbackCalls_app, (touches_no_callback _ _ Hown). lia. }
  split; [done |].
  destruct (destructor_object s1 w1) as (_ & evs2 & -> & Hevs2).
  rewrite closeStream_trace, !callbackCalls_app, Hcb.
  assert (callbackCalls (if decide (fd s1 = -1) then [] else [CallClose (fd s1)]) = 0%nat)
    as -> by (by case_decide).
  destruct Hevs2 as [-> | ->]; unfold callbackCalls at 2; simpl; lia.
Qed.

Lemma destructor_close_count s w :
  isInterrupted (StandardSession.destructor (s, w)).1 = false ->
  fd (StandardSession.destructor (s, w)).2.1 = -1 /\
  closeCalls (trace (StandardSession.destructor (s, w)).2.2) =
    (closeCalls (trace w) + if decide (fd s = (-1)%Z) then 0 else 1)%nat.
Proof.
  intros Hni.
  assert ((StandardSession.closeStream (s, w)).1 <> Raise thread_interrupted) as Hc.
  { intros Hc. rewrite destructor_unfold in Hni.
    destruct (StandardSession.closeStream (s, w)) as [[[] | e] st']; simpl in *;
      [done |]. by simplify_eq. }
  destruct (destructor_object s w) as (-> & evs & -> & Hevs).
  split; [by apply closeStream_not_interrupted_absent |].
  rewrite closeStream_trace, !closeCalls_app.
  assert (closeCalls evs = 0%nat) as -> by (by destruct Hevs as [-> | ->]).
  case_decide; unfold closeCalls at 2; simpl; lia.
Qed.

Lemma life_close_count (ops : list Op) s w :
  existsb isDiscard ops = false ->
  existsb isInterrupted (performAll ops (s, w)).1 = false ->
  isInterrupted (StandardSession.destructor (performAll ops (s, w)).2).1 = false ->
  fd (StandardSession.destructor (performAll ops (s, w)).2).2.1 = -1 /\
  closeCalls (trace (StandardSession.destructor (performAll ops (s, w)).2).2.2) =
    (closeCalls (trace w) + if decide (fd s = (-1)%Z) then 0 else 1)%nat.
Proof.
  revert s w. induction ops as [| op ops IH]; intros s w; simpl.
  - intros _ _. apply destructor_close_count.
  - intros [Hop Hops]%orb_false_elim.
    destruct (perform_step op s w) as (evs & Htr & _ & Hcl & Hobj).
    assert (op = OpCloseStream ->
            isInterrupted (perform op (s, w)).1 = false ->
            fd (perform op (s, w)).2.1 = -1 /\
            closeCalls (trace (perform op (s, w)).2.2) =
              (closeCalls (trace w) + if decide (fd s = (-1)%Z) then 0 else 1)%nat) as Hclose.
    { intros -> Hni. simpl in *. split.
      - apply closeStream_not_interrupted_absent. intros Hc. by rewrite Hc in Hni.
      - rewrite closeStream_trace, closeCalls_app.
        case_decide; unfold closeCalls at 2; simpl; lia. }
    destruct (perform op (s, w)) as [r [s1 w1]]. simpl in *.
    specialize (IH s1 w1 Hops).
    destruct (performAll ops (s1, w1)) as [rs [s2 w2]]. simpl in *.
    intros [Hr Hrs]%orb_false_elim Hd. destruct (IH Hrs Hd) as [Hfd Hcount].
    split; [done |]. rewrite Hcount.
    assert (op = OpCloseStream ->
            (closeCalls (trace w1) + (if decide (fd s1 = (-1)%Z) then 0 else 1) =
             closeCalls (trace w) + (if decide (fd s = (-1)%Z) then 0 else 1))%nat) as Hcase.
    { intros Heq. destruct (Hclose Heq Hr) as [Habs ->].
      rewrite (decide_True _ _ Habs). lia. }
    destruct Hcl as [Hcl | Heq]; [| by apply Hcase].
    destruct Hobj as [-> | [[Heq | ->] _]]; [| by apply Hcase | discriminate].
    rewrite Htr, closeCalls_app, Hcl. lia.
Qed.

(** X5.  The stream is closed on destruction unless it was discarded.
    For a session with a present handle that is never discarded, and a
    life in which no call is cut short by an interruption, the close
    primitive is called exactly once, and the handle is absent in the
    end. *)
Theorem stream_closed_once (ops : list Op) s w :
  fd s <> -1 ->
  existsb isDiscard ops = false ->
  existsb isInterrupted (performAll ops (s, w)).1 = false ->
  isInterrupted (StandardSession.destructor (performAll ops (s, w)).2).1 = false ->
  getStream (StandardSession.destructor (performAll ops (s, w)).2).2.1 = -1 /\
  closeCalls (trace (StandardSession.destructor (performAll ops (s, w)).2).2.2) =
    Datatypes.S (closeCalls (trace w)).
Proof.
  intros Hfd Hnd Hni Hd.
  destruct (life_close_count ops s w Hnd Hni Hd) as [Habs Hcount].
  split; [done |]. rewrite Hcount, decide_False by done. lia.
Qed.

(** X6.  On a present handle [shutdownReader] and [shutdownWriter] make
    one call to the shutdown primitive, in their own direction.  When it
    returns -1 they throw a [SystemException] that names the direction and
    carries the [errno] of the call; when it returns anything else they
    return; when it is interrupted, [thread_interrupted] passes through. *)
Theorem shutdown_outcomes s w :
  fd s <> -1 ->
  let outcome (how : ShutdownHow) (msg : string) : Result unit :=
    match (syscalls_shutdown (fd s) how (ext w)).1 with
    | SysRet v en => if decide (v = -1) then Raise (SystemException msg en) else Return tt
    | SysInterrupted => Raise thread_interrupted
    end in
  (StandardSession.shutdownReader (s, w)).1 =
    outcome SHUT_RD "Cannot shutdown the reader stream" /\
  trace (StandardSession.shutdownReader (s, w)).2.2 =
    trace w ++ [CallShutdown (fd s) SHUT_RD] /\
  (StandardSession.shutdownWriter (s, w)).1 =
    outcome SHUT_WR "Cannot shutdown the writer stream" /\
  trace (StandardSession.shutdownWriter (s, w)).2.2 =
    trace w ++ [CallShutdown (fd s) SHUT_WR].
Proof.
  intros Hfd. simpl.
  by rewrite shutdownReader_present, shutdownWriter_present.
Qed.

(** X7.  When the close primitive is interrupted, [closeStream] lets
    [thread_interrupted] through and the handle stays as it was: a second
    [closeStream] calls the close primitive on the same descriptor again,
    and a destructor run in that state ends with the same exception
    without invoking the callback. *)
Theorem closeStream_interrupted_keeps_handle s w :
  fd s <> -1 ->
  (syscalls_close (fd s) (ext w)).1 = SysInterrupted ->
  let c := StandardSession.closeStream (s, w) in
  c.1 = Raise thread_interrupted /\
  c.2.1 = s /\
  trace (StandardSession.closeStream c.2).2.2 =
    trace w ++ [CallClose (fd s); CallClose (fd s)] /\
  (StandardSession.destructor (s, w)).1 = Raise thread_interrupted /\
  callbackCalls (trace (StandardSession.destructor (s, w)).2.2) = callbackCalls (trace w).
Proof.
  intros Hfd Hc. destruct (syscalls_close (fd s) (ext w)) as [r e'] eqn:Hp.
  simpl in Hc. subst r. intros c.
  assert (c = (Raise thread_interrupted,
               (s, mkWorld e' (errno w) (trace w ++ [CallClose (fd s)])))) as Hceq
    by (by apply closeStream_present_interrupted).
  rewrite destructor_unfold. fold c. rewrite Hceq. simpl.
  split; [done |]. split; [done |]. split.
  - rewrite closeStream_trace. simpl. rewrite decide_False by done.
    by rewrite <- app_assoc.
  - split; [done |]. rewrite callbackCalls_app. unfold callbackCalls at 2. simpl. lia.
Qed.

(** X8.  When the close attempt of the destructor does not throw, the
    destructor ends the way the callback ends: an exception thrown by the
    callback leaves the destructor.  The callback runs on the outside
    state that the close has left. *)
Theorem destructor_passes_callback_result s w :
  let c := StandardSession.closeStream (s, w) in
  c.1 = Return tt ->
  (StandardSession.destructor (s, w)).1 = (closeCallback s (ext c.2.2)).1 /\
  ext (StandardSession.destructor (s, w)).2.2 = (closeCallback s (ext c.2.2)).2.
Proof.
  intros c Hc. rewrite destructor_unfold. fold c.
  assert (closeCallback c.2.1 = closeCallback s) as Hcb.
  { subst c. destruct (closeStream_object s w) as [-> | ->]; done. }
  destruct c as [[[] | e] [s1 w1]]; simpl in *; [| done].
  unfold invoke. simpl. rewrite Hcb.
  by destruct (closeCallback s (ext w1)).
Qed.

(** X9.  The timeout setters make one call, with the session's handle and
    the given number of milliseconds, leave the object as it is, and end
    the way the call ends: a [SystemException] of the channel passes
    through with its message and code unchanged. *)
Theorem setTimeout_passes_through s w (msec : Z) :
  let r := StandardSession.setReaderTimeout msec (s, w) in
  let r' := StandardSession.setWriterTimeout msec (s, w) in
  (r.2.1 = s /\
   trace r.2.2 = trace w ++ [CallSetReadTimeout (getStream s) msec] /\
   forall b c, (setReadTimeout (getStream s) msec (ext w)).1 = ChanSystemException b c ->
     r.1 = Raise (SystemException b c)) /\
  (r'.2.1 = s /\
   trace r'.2.2 = trace w ++ [CallSetWriteTimeout (getStream s) msec] /\
   forall b c, (setWriteTimeout (getStream s) msec (ext w)).1 = ChanSystemException b c ->
     r'.1 = Raise (SystemException b c)).
Proof.
  simpl. rewrite setReaderTimeout_spec, setWriterTimeout_spec. simpl.
  unfold StandardSession.getStream.
  repeat split; intros b c ->; done.
Qed.

(** [setPoolIdentifier] then [getPoolIdentifier] gives back the value set;
    setting it makes no call and changes neither the handle nor the
    process id. *)
Lemma poolIdentifier_round_trip s w (v : string) :
  let r := StandardSession.setPoolIdentifier v (s, w) in
  r.1 = Return tt /\
  StandardSession.getPoolIdentifier r.2.1 = v /\
  getStream r.2.1 = getStream s /\
  getPid r.2.1 = getPid s /\
  r.2.2 = w.
Proof. done. Qed.

End StandardSessionLife.

Section SessionSends.
Context {E : Type} `{!Platform E} {S : Type} `{!Session E S}.
Implicit Types (s : S) (w : World E).

(** X10.  [sendHeaders] and [sendBodyBlock] never change the object:
    after a write that failed, the session still holds its handle.  They
    return when the write returns, and an interruption of the write leaves
    them as [thread_interrupted], not as a [SystemException]. *)
Theorem send_leaves_session s w (buf : list Byte.byte) :
  (sendHeaders buf (s, w)).2.1 = s /\
  (sendBodyBlock buf (s, w)).2.1 = s /\
  (getStream s <> -1 ->
     ((writeScalar (getStream s) buf (ext w)).1 = ChanOk ->
        (sendHeaders buf (s, w)).1 = Return tt) /\
     ((writeRaw (getStream s) buf (ext w)).1 = ChanOk ->
        (sendBodyBlock buf (s, w)).1 = Return tt) /\
     ((writeScalar (getStream s) buf (ext w)).1 = ChanInterrupted ->
        (sendHeaders buf (s, w)).1 = Raise thread_interrupted) /\
     ((writeRaw (getStream s) buf (ext w)).1 = ChanInterrupted ->
        (sendBodyBlock buf (s, w)).1 = Raise thread_interrupted)).
Proof.
  destruct (decide (getStream s = -1)) as [Habs | Hfd].
  - rewrite sendHeaders_absent, sendBodyBlock_absent by done. done.
  - rewrite sendHeaders_present, sendBodyBlock_present by done. simpl.
    split; [done |]. split; [done |]. intros _.
    repeat split; intros ->; done.
Qed.

End SessionSends.

(** ** The header grammar, continued *)

Lemma headers_app (a b : list Byte.byte) : headers a -> headers b -> headers (a ++ b).
Proof.
  induction 1 as [| name value rest Hn Hv _ IH]; intros Hb; simpl; [done |].
  rewrite <- app_assoc. simpl. rewrite <- app_assoc. simpl.
  constructor; auto.
Qed.

(** X11.  The grammar is exactly what the encoder writes: a buffer is in
    the grammar if and only if it is the encoding of a list of well-formed
    pairs; so buffers of the grammar can be concatenated. *)
Theorem headers_iff_encoded (buf : list Byte.byte) :
  (headers buf <-> exists hs, Forall wellFormed hs /\ buf = encodeHeaders hs) /\
  (forall buf', headers buf -> headers buf' -> headers (buf ++ buf')).
Proof.
  split; [split |].
  - induction 1 as [| name value rest Hn Hv _ (hs & Hwf & ->)].
    + by exists [].
    + exists ((name, value) :: hs). split; [by constructor |].
      unfold encodeHeaders. simpl. unfold encodeHeader. simpl.
      rewrite <- !app_assoc. simpl. by rewrite <- app_assoc.
  - intros (hs & Hwf & ->). by apply encodeHeaders_headers.
  - intros buf'. apply headers_app.
Qed.

(** X12.  The encoding is unambiguous: two lists of well-formed pairs with
    the same encoding are the same list. *)
Theorem encodeHeaders_injective (hs hs' : list (list Byte.byte * list Byte.byte)) :
  Forall wellFormed hs -> Forall wellFormed hs' ->
  encodeHeaders hs = encodeHeaders hs' -> hs = hs'.
Proof.
  intros Hwf Hwf' Heq.
  assert (concat (map (fun h : list Byte.byte * list Byte.byte => [h.1; h.2]) hs) =
          concat (map (fun h : list Byte.byte * list Byte.byte => [h.1; h.2]) hs')) as Hflat.
  { rewrite <- !encodeHeaders_tokens by done. by rewrite Heq. }
  clear -Hflat. revert hs' Hflat.
  induction hs as [| [n v] hs IH]; intros [| [n' v'] hs']; simpl; try done.
  intros [= -> -> Hrest]. f_equal. by apply IH.
Qed.

(** ** The further properties at concrete sessions *)

(** A session that has discarded descriptor 7 stays without a handle. *)
Lemma handle_one_way_witness :
  getStream (StandardSession.discardStream (session 7, world0)).2.1 = -1 /\
  getStream (performAll [OpSetReaderTimeout 500; OpSendBodyBlock requestBody; OpCloseStream]
               (StandardSession.discardStream (session 7, world0)).2).2.1 = -1.
Proof.
  split; [reflexivity |].
  exact (proj2 (handle_one_way
                  [OpSetReaderTimeout 500; OpSendBodyBlock requestBody; OpCloseStream]
                  (set_fd (-1) (session 7)) world0) eq_refl).
Defined.

(** The session on descriptor 7 never makes a call on descriptor 8, and
    what it calls on -1 after the discard is a timeout setting. *)
Lemma own_descriptor_only_witness :
  exists own rest,
    trace (StandardSession.destructor
             (performAll [OpSendHeaders requestHeaders; OpShutdownWriter; OpDiscardStream;
                          OpSetWriterTimeout 0] (session 7, world0)).2).2.2 =
      trace world0 ++ own ++ rest /\
    forallb (touches 7) own = true /\
    forallb (fun ev => isTimeoutOnAbsent ev || isCloseCallback ev) rest = true /\
    existsb (touches 8) (own ++ rest) = false.
Proof.
  destruct (own_descriptor_only
              [OpSendHeaders requestHeaders; OpShutdownWriter; OpDiscardStream;
               OpSetWriterTimeout 0] (session 7) world0)
    as (own & rest & Htr & Hown & _ & Hrest & Hother & _).
  exists own, rest. split; [exact Htr |]. split; [exact Hown |].
  split; [exact Hrest |]. apply Hother; discriminate.
Defined.

(** A whole request on descriptor 7, with a second [closeStream] thrown
    in: one close call. *)
Lemma stream_closed_once_witness :
  fd (session 7) <> -1 /\
  closeCalls (trace (StandardSession.destructor
                       (performAll [OpSendHeaders requestHeaders; OpSendBodyBlock requestBody;
                                    OpShutdownWriter; OpCloseStream; OpCloseStream]
                          (session 7, world0)).2).2.2) = 1%nat.
Proof.
  assert (fd (session 7) <> -1) as Hfd by discriminate.
  split; [exact Hfd |].
  exact (proj2 (stream_closed_once
                  [OpSendHeaders requestHeaders; OpSendBodyBlock requestBody;
                   OpShutdownWriter; OpCloseStream; OpCloseStream]
                  (session 7) world0 Hfd eq_refl eq_refl eq_refl)).
Defined.

(** Descriptor 5 is not open: shutting down its read half fails with
    EBADF. *)
Lemma shutdown_outcomes_witness :
  fd (session 5) <> -1 /\
  (StandardSession.shutdownReader (session 5, world0)).1 =
    Raise (SystemException "Cannot shutdown the reader stream" EBADF) /\
  (StandardSession.shutdownWriter (session 7, world0)).1 = Return tt.
Proof.
  assert (fd (session 5) <> -1) as Hfd5 by discriminate.
  assert (fd (session 7) <> -1) as Hfd7 by discriminate.
  split; [exact Hfd5 |]. split.
  - exact (proj1 (shutdown_outcomes (session 5) world0 Hfd5)).
  - exact (proj1 (proj2 (proj2 (shutdown_outcomes (session 7) world0 Hfd7)))).
Defined.

(** With an interruption pending the close of descriptor 7 is cut short
    and the handle stays 7. *)
Lemma closeStream_interrupted_keeps_handle_witness :
  fd (session 7) <> -1 /\
  (syscalls_close 7 (ext worldInterrupted)).1 = SysInterrupted /\
  (StandardSession.closeStream (session 7, worldInterrupted)).1 = Raise thread_interrupted /\
  (StandardSession.closeStream (session 7, worldInterrupted)).2.1 = session 7.
Proof.
  assert (fd (session 7) <> -1) as Hfd by discriminate.
  pose proof (closeStream_interrupted_keeps_handle (session 7) worldInterrupted Hfd eq_refl)
    as (Hr & Hs & _).
  split; [exact Hfd |]. split; [reflexivity |]. split; [exact Hr | exact Hs].
Defined.

(** A callback that throws: its exception leaves the destructor. *)
Lemma destructor_passes_callback_result_witness :
  (StandardSession.closeStream (StandardSession.new 1234 throwingCallback 7, world0)).1 =
    Return tt /\
  (StandardSession.destructor (StandardSession.new 1234 throwingCallback 7, world0)).1 =
    Raise (IOException "the pool is gone").
Proof.
  split; [reflexivity |].
  exact (proj1 (destructor_passes_callback_result
                  (StandardSession.new 1234 throwingCallback 7) world0 eq_refl)).
Defined.

(** Descriptor 5 is not open: the exception of the channel arrives as it
    was thrown. *)
Lemma setTimeout_passes_through_witness :
  (setReadTimeout 5 0 kernel0).1 =
    ChanSystemException "Cannot set read timeout for socket" EBADF /\
  (StandardSession.setReaderTimeout 0 (session 5, world0)).1 =
    Raise (SystemException "Cannot set read timeout for socket" EBADF).
Proof.
  split; [reflexivity |].
  exact (proj2 (proj2 (proj1 (setTimeout_passes_through (session 5) world0 0)))
           "Cannot set read timeout for socket" EBADF eq_refl).
Defined.

(** With an interruption pending, the write of the headers is cut short. *)
Lemma send_leaves_session_witness :
  getStream (session 7) <> -1 /\
  (writeScalar 7 requestHeaders (ext worldInterrupted)).1 = ChanInterrupted /\
  (sendHeaders requestHeaders (session 7, worldInterrupted)).1 = Raise thread_interrupted /\
  (sendHeaders requestHeaders (session 7, worldInterrupted)).2.1 = session 7.
Proof.
  assert (getStream (session 7) <> -1) as Hfd by discriminate.
  pose proof (send_leaves_session (session 7) worldInterrupted requestHeaders)
    as (Hobj & _ & Hpresent).
  split; [exact Hfd |]. split; [reflexivity |]. split.
  - exact (proj1 (proj2 (proj2 (Hpresent Hfd))) eq_refl).
  - exact Hobj.
Defined.

(** The request headers twice over are in the grammar. *)
Lemma headers_iff_encoded_witness :
  headers requestHeaders /\ headers (requestHeaders ++ requestHeaders).
Proof.
  assert (headers requestHeaders) as Hh.
  { apply (encodeHeaders_headers
             [(String.list_byte_of_string "REQUEST_METHOD", String.list_byte_of_string "GET")]).
    repeat constructor; discriminate. }
  split; [exact Hh |].
  exact (proj2 (headers_iff_encoded requestHeaders) requestHeaders Hh Hh).
Defined.

(** A pair is not mistaken for another: ("AB","C") and ("A","BC") have
    different encodings. *)
Lemma encodeHeaders_injective_witness :
  Forall wellFormed [(String.list_byte_of_string "AB", String.list_byte_of_string "C")] /\
  Forall wellFormed [(String.list_byte_of_string "A", String.list_byte_of_string "BC")] /\
  encodeHeaders [(String.list_byte_of_string "AB", String.list_byte_of_string "C")] <>
  encodeHeaders [(String.list_byte_of_string "A", String.list_byte_of_string "BC")].
Proof.
  assert (Forall wellFormed
            [(String.list_byte_of_string "AB", String.list_byte_of_string "C")]) as H1
    by (repeat constructor; discriminate).
  assert (Forall wellFormed
            [(String.list_byte_of_string "A", String.list_byte_of_string "BC")]) as H2
    by (repeat constructor; discriminate).
  split; [exact H1 |]. split; [exact H2 |].
  intros Heq. pose proof (encodeHeaders_injective _ _ H1 H2 Heq) as Hhs. discriminate Hhs.
Defined.
